(** * BrowserLikeWindow: the tab and view lifecycle manager of src/index.js

    A shallow embedding of the [BrowserLikeWindow] class: the ordered tab
    list [this.tabs], the objects [this.views] and [this.defTabConfigs], the
    active id [this.defCurrentViewId], the IPC handlers of the constructor
    and the navigation listeners that [loadURL] attaches to a view; and of
    the Enter handler of the address bar in control-moon.js.

    The Electron platform is opaque.  What the class asks of it (IPC
    replies, emitted events, calls on a [webContents]) is appended to an
    effect log kept in the state, in program order; what the class reads
    from it ([webContents.id], [getURL()], [canGoBack()], ...) is data of
    the state or an argument of the operation. *)

From stdpp Require Import base option list gmap strings pretty.

Local Open Scope Z_scope.

(** ** JavaScript values and helpers *)

(** [TabID]: the [webContents.id] of a view, a JavaScript number. *)
Abbreviation TabID := N (only parsing).

(** The values stored in the fields of a [Tab] object. *)
Inductive value : Type :=
| Undefined
| Bool (b : bool)
| Str (s : string).

#[global] Instance value_eq_dec : EqDecision value.
Proof. solve_decision. Defined.

(** A [Tab] is a plain object, [{url, href, title, favicon, isLoading,
    canGoBack, canGoForward}], built and copied with object spread. *)
Abbreviation Tab := (gmap string value) (only parsing).

(** [Tabs]: an object keyed by TabID.  A key can be present with the value
    [undefined] (the [close-tab] handler writes [[id]: undefined]): the
    model keeps [Some None] for such a key and [None] for a missing key. *)
Abbreviation Tabs := (gmap N (option (gmap string value))) (only parsing).

(** [obj[k]]: [undefined] both for a missing key and for a key bound to
    [undefined]. *)
Definition js_get {V : Type} (m : gmap N (option V)) (k : N) : option V :=
  match m !! k with
  | Some v => v
  | None => None
  end.

(** Truthiness of an optional number: [undefined], [null] and [0] are
    falsy. *)
Definition truthy_id (v : option N) : bool :=
  match v with
  | Some n => negb (N.eqb n 0)
  | None => false
  end.

(** Truthiness of an optional string: [undefined] and [''] are falsy. *)
Definition truthy_str (v : option string) : bool :=
  match v with
  | Some EmptyString => false
  | Some _ => true
  | None => false
  end.

(** [a || b] on optional strings. *)
Definition js_or (a b : option string) : option string :=
  if truthy_str a then a else b.

(** [Array.prototype.indexOf]: first index of [x], or [-1]. *)
Fixpoint indexOf (l : list N) (x : N) : Z :=
  match l with
  | [] => -1
  | y :: r =>
      if decide (y = x) then 0
      else let i := indexOf r x in if i =? -1 then -1 else i + 1
  end.

(** [arr[i]] for an integer index: [undefined] out of range. *)
Definition js_nth (l : list N) (i : Z) : option N :=
  if i <? 0 then None else l !! Z.to_nat i.

(** [arr.splice(start, 0, x)], with the clamping of [start] that
    [Array.prototype.splice] performs. *)
Definition splice_insert (l : list N) (start : Z) (x : N) : list N :=
  let len := Z.of_nat (length l) in
  let s := if start <? 0 then Z.max (len + start) 0 else Z.min start len in
  take (Z.to_nat s) l ++ x :: drop (Z.to_nat s) l.

(** [arr.filter(v => v !== id)]. *)
Definition remove_id (id : N) (l : list N) : list N :=
  filter (λ v, v ≠ id) l.

(** [s] begins with [pat]. *)
Fixpoint starts_with (pat s : string) : bool :=
  match pat, s with
  | EmptyString, _ => true
  | String a p, String b r => if decide (a = b) then starts_with p r else false
  | String _ _, EmptyString => false
  end.

(** [s.includes(pat)]. *)
Fixpoint includes (s pat : string) : bool :=
  starts_with pat s ||
  match s with
  | EmptyString => false
  | String _ r => includes r pat
  end.

Fixpoint str_drop (n : nat) (s : string) : string :=
  match n, s with
  | O, _ => s
  | S k, String _ r => str_drop k r
  | S _, EmptyString => EmptyString
  end.

(** [s.replace(pat, rep)] with a string pattern: the first occurrence. *)
Fixpoint replace_first (pat rep s : string) : string :=
  if starts_with pat s then rep +:+ str_drop (String.length pat) s
  else match s with
       | EmptyString => EmptyString
       | String c r => String c (replace_first pat rep r)
       end.

(** ** The platform objects *)

(** What the class reads from the [webContents] of a live view. *)
Record View : Type := mkView {
  wc_url : string;          (* webContents.getURL() *)
  wc_canGoBack : bool;      (* webContents.canGoBack() *)
  wc_canGoForward : bool;   (* webContents.canGoForward() *)
  wc_marks : bool           (* webContents['__IS_INITIALIZED__'] *)
}.

(** [new BrowserView(...)]: nothing loaded, no listeners. *)
Definition new_view : View :=
  {| wc_url := ""; wc_canGoBack := false; wc_canGoForward := false;
     wc_marks := false |}.

(** The constructor options the modelled code reads. *)
Record Options : Type := mkOptions {
  startPage : option string;
  blankPage : option string;
  blankTitle : option string
}.

(** What the class asks of the platform, in program order. *)
Inductive Effect : Type :=
| ActiveUpdate (id : TabID)
    (* this.ipc.reply('active-update', id) *)
| TabsUpdate (confs : Tabs) (order : list TabID)
    (* this.ipc.reply('tabs-update', {confs, tabs}) *)
| UrlUpdated (view : N) (href : string)
    (* this.emit('url-updated', {view, href}) *)
| ControlReady
    (* this.emit('control-ready', e) *)
| WinRemoveView (v : option N)
    (* this.win.removeBrowserView(v), None for null or undefined *)
| WinAddView (v : option N)
    (* this.win.addBrowserView(v) *)
| SetBounds (v : N)
    (* view.setBounds(...) *)
| WcLoadURL (v : N) (url : string)
    (* webContents.loadURL(url) *)
| WcCall (v : N) (actionName : string)
    (* webContents[actionName]() *)
| WcFocus (v : N)
    (* webContents.focus() *)
| WcDestroy (v : N).
    (* webContents.destroy() *)

(** The fields of a [BrowserLikeWindow] instance. *)
Record State : Type := mkState {
  defCurrentViewId : option TabID;
  defTabConfigs : Tabs;
  views : gmap TabID (option View);
  tabs : list TabID;
  ipc : bool;               (* this.ipc is set *)
  log : list Effect
}.

(** The state the constructor leaves. *)
Definition initial_state : State :=
  {| defCurrentViewId := None; defTabConfigs := ∅; views := ∅; tabs := [];
     ipc := false; log := [] |}.

Definition emit (e : Effect) (st : State) : State :=
  {| defCurrentViewId := defCurrentViewId st;
     defTabConfigs := defTabConfigs st; views := views st; tabs := tabs st;
     ipc := ipc st; log := log st ++ [e] |}.

Definition set_tabs (l : list N) (st : State) : State :=
  {| defCurrentViewId := defCurrentViewId st;
     defTabConfigs := defTabConfigs st; views := views st; tabs := l;
     ipc := ipc st; log := log st |}.

Definition set_views (m : gmap N (option View)) (st : State) : State :=
  {| defCurrentViewId := defCurrentViewId st;
     defTabConfigs := defTabConfigs st; views := m; tabs := tabs st;
     ipc := ipc st; log := log st |}.

Definition set_ipc (b : bool) (st : State) : State :=
  {| defCurrentViewId := defCurrentViewId st;
     defTabConfigs := defTabConfigs st; views := views st; tabs := tabs st;
     ipc := b; log := log st |}.

(** How a command ends: normally, or with an uncaught [TypeError]; the
    fields keep what was written before the throw. *)
Inductive completion : Type :=
| Normal (st : State)
| Throw (st : State).

Definition state_of (c : completion) : State :=
  match c with
  | Normal st => st
  | Throw st => st
  end.

(** ** Accessors *)

(** [get currentViewId]. *)
Definition currentViewId (st : State) : option TabID :=
  defCurrentViewId st.

(** [get currentView]: [this.currentViewId ? this.views[...] : null]. *)
Definition currentView (st : State) : option View :=
  if truthy_id (currentViewId st) then
    match currentViewId st with
    | Some id => js_get (views st) id
    | None => None
    end
  else None.

(** The id under which [currentView] is stored, when there is one. *)
Definition currentViewKey (st : State) : option N :=
  match currentView st with
  | Some _ => currentViewId st
  | None => None
  end.

(** [setContentBounds]: resize the current view, if any. *)
Definition setContentBounds (st : State) : State :=
  match currentViewKey st with
  | Some id => emit (SetBounds id) st
  | None => st
  end.

(** [set currentViewId(id)]. *)
Definition set_currentViewId (id : N) (st : State) : State :=
  let st1 :=
    {| defCurrentViewId := Some id; defTabConfigs := defTabConfigs st;
       views := views st; tabs := tabs st; ipc := ipc st; log := log st |} in
  let st2 := setContentBounds st1 in
  if ipc st2 then emit (ActiveUpdate id) st2 else st2.

(** [get tabConfigs]. *)
Definition tabConfigs (st : State) : Tabs := defTabConfigs st.

(** [set tabConfigs(v)]. *)
Definition set_tabConfigs (v : Tabs) (st : State) : State :=
  let st1 :=
    {| defCurrentViewId := defCurrentViewId st; defTabConfigs := v;
       views := views st; tabs := tabs st; ipc := ipc st; log := log st |} in
  if ipc st1 then emit (TabsUpdate v (tabs st1)) st1 else st1.

(** ** The methods of the class *)

Section BrowserLikeWindow.

(** [fileUrl] is the [file-url] package, [dirname] is [__dirname], and
    [wc_has_method name] says that [typeof webContents[name]] is
    ['function']. *)
Context (fileUrl : string → string) (dirname : string) (options : Options)
        (wc_has_method : string → bool).

(** [setTabConfig(viewId, kv)]: the entry becomes
    [{...tab, canGoBack, canGoForward, ...kv}]; later keys win. *)
Definition setTabConfig (viewId : TabID) (kv : Tab) (st : State) : State :=
  let tab := js_get (tabConfigs st) viewId in
  let webContents := js_get (views st) viewId in
  let canGoBack :=
    match webContents with
    | Some wc => Bool (wc_canGoBack wc)
    | None => Undefined
    end in
  let canGoForward :=
    match webContents with
    | Some wc => Bool (wc_canGoForward wc)
    | None => Undefined
    end in
  set_tabConfigs
    (<[viewId :=
         Some (kv ∪ <["canGoForward" := canGoForward]>
                      (<["canGoBack" := canGoBack]> (default ∅ tab)))]>
       (tabConfigs st))
    st.

(** [setCurrentView(viewId)]. *)
Definition setCurrentView (viewId : option N) (st : State) : State :=
  if truthy_id viewId then
    match viewId with
    | Some id =>
        let st1 := emit (WinRemoveView (currentViewKey st)) st in
        let st2 :=
          emit (WinAddView (match js_get (views st1) id with
                            | Some _ => Some id
                            | None => None
                            end)) st1 in
        set_currentViewId id st2
    | None => st
    end
  else st.

(** [destroyView(viewId)]. *)
Definition destroyView (viewId : N) (st : State) : State :=
  match js_get (views st) viewId with
  | Some _ =>
      set_views (<[viewId := None]> (views st)) (emit (WcDestroy viewId) st)
  | None => st
  end.

Definition mark_initialized (id : N) (st : State) : State :=
  match js_get (views st) id with
  | Some v =>
      set_views
        (<[id := Some {| wc_url := wc_url v; wc_canGoBack := wc_canGoBack v;
                         wc_canGoForward := wc_canGoForward v;
                         wc_marks := true |}]> (views st)) st
  | None => st
  end.

(** The local resource behind a built-in page. *)
Definition page_locator (name : string) : string :=
  fileUrl (dirname +:+ "/main/renderer/" +:+ name +:+ ".html").

(** [loadURL(url)]: loads into the current view.  On the first load of a
    view the navigation listeners are attached and the view is marked. *)
Definition loadURL (url : option string) (st : State) : State :=
  match url, currentView st, currentViewId st with
  | Some u, Some v, Some id =>
      if truthy_str url then
        if wc_marks v then
          let u' :=
            if includes u "px://"
            then page_locator (replace_first "px://" "" u)
            else u in
          emit (WcLoadURL id u') st
        else
          setContentBounds (mark_initialized id (emit (WcLoadURL id u) st))
      else st
  | _, _, _ => st
  end.

(** [newTab(url, appendTo, references)]; [vid] is the [webContents.id] of
    the view that [new BrowserView] returns.  The web preferences built from
    [references] have no part in the modelled state. *)
Definition newTab (url : option string) (appendTo : option N) (vid : N)
    (st : State) : State :=
  let st1 :=
    if truthy_id appendTo then
      match appendTo with
      | Some a =>
          let prevIndex := indexOf (tabs st) a in
          set_tabs (splice_insert (tabs st) (prevIndex + 1) vid) st
      | None => st
      end
    else set_tabs (tabs st ++ [vid]) st in
  let st2 := set_views (<[vid := Some new_view]> (views st1)) st1 in
  let st3 := setCurrentView (Some vid) st2 in
  let st4 := loadURL (js_or url (blankPage options)) st3 in
  setTabConfig vid
    {[ "title" :=
         Str (default "about:blank" (js_or (blankTitle options) None)) ]}
    st4.

(** [switchTab(viewId)]: [this.currentView.webContents.focus()] throws when
    there is no current view. *)
Definition switchTab (viewId : N) (st : State) : completion :=
  let st1 := setCurrentView (Some viewId) st in
  match currentViewKey st1 with
  | Some id => Normal (emit (WcFocus id) st1)
  | None => Throw st1
  end.

(** *** The IPC handlers of the constructor *)

(** ['control-ready']. *)
Definition control_ready (vid : N) (st : State) : State :=
  emit ControlReady (newTab (js_or (startPage options) (Some "")) None vid
                       (set_ipc true st)).

(** ['close-tab'], lines 161 to 165: switch away from the closed tab. *)
Definition closeTab_switch (id : N) (st : State) : State :=
  if decide (Some id = currentViewId st) then
    let removeIndex := indexOf (tabs st) id in
    let nextIndex :=
      if removeIndex =? Z.of_nat (length (tabs st)) - 1 then 0
      else removeIndex + 1 in
    setCurrentView (js_nth (tabs st) nextIndex) st
  else st.

(** ['close-tab'], lines 166 to 170: drop the id from the order and set its
    entry to [undefined]. *)
Definition closeTab_remove (id : N) (st : State) : State :=
  let st1 := set_tabs (remove_id id (tabs st)) st in
  set_tabConfigs (<[id := None]> (tabConfigs st1)) st1.

(** ['close-tab'], lines 173 to 175. *)
Definition closeTab_reopen (vid : N) (st : State) : State :=
  if Nat.eqb (length (tabs st)) 0 then newTab None None vid st else st.

(** ['close-tab']; [vid] is the id the platform gives to the view of the
    blank tab, when one is opened. *)
Definition closeTab (id vid : N) (st : State) : State :=
  closeTab_reopen vid
    (destroyView id (closeTab_remove id (closeTab_switch id st))).

(** [webContentsAct(actionName)], the handler of ['act']. *)
Definition webContentsAct (actionName : string) (st : State) : State :=
  match currentView st, currentViewId st with
  | Some wc, Some id =>
      if wc_has_method actionName then
        if bool_decide (actionName = "reload") && bool_decide (wc_url wc = "")
        then st
        else emit (WcCall id actionName) st
      else st
  | _, _ => st
  end.

(** *** The navigation listeners attached by [loadURL] *)

(** The [webContents] events the listeners receive, with the arguments
    Electron passes after the event object. *)
Inductive WcEvent : Type :=
| DidStartLoading
| DidFailLoad (code : Z) (desc url : string) (isMainFrame : bool)
| DidStartNavigation (href : string) (isInPlace isMainFrame : bool)
| WillRedirect (href : string) (isInPlace isMainFrame : bool)
| PageTitleUpdated (title : string)
| PageFaviconUpdated (favicons : list string)
| DidStopLoading
| DomReady.

(** The chain of [if]s of the ['did-start-navigation'] listener; each test
    reads the [href] the tests before it may have reassigned. *)
Definition rewrite_href (href : string) : string :=
  let href :=
    if bool_decide (Some href = blankPage options) then "" else href in
  let href :=
    if includes href (page_locator "settings") then "px://settings"
    else href in
  let href :=
    if includes href (page_locator "about") then "px://about" else href in
  let href :=
    if includes href (page_locator "help") then "px://help" else href in
  let href :=
    if includes href (page_locator "web_fail_code") then "px://network-error"
    else href in
  let href :=
    if includes href (page_locator "credits") then "px://credits"
    else href in
  href.

(** ['did-start-navigation']. *)
Definition on_did_start_navigation (id : N) (href : string)
    (isInPlace isMainFrame : bool) (st : State) : State :=
  if isMainFrame then
    let href := rewrite_href href in
    emit (UrlUpdated id href)
      (setTabConfig id {[ "url" := Str href; "href" := Str href ]} st)
  else st.

(** ['will-redirect']: the listener binds [(e, href)] only. *)
Definition on_will_redirect (id : N) (href : string) (st : State) : State :=
  emit (UrlUpdated id href)
    (setTabConfig id {[ "url" := Str href; "href" := Str href ]} st).

(** The address the ['did-fail-load'] listener loads. *)
Definition fail_page_url (code : Z) (desc url : string) : string :=
  page_locator "web_fail_code" +:+ "?errorDescription=" +:+ desc +:+
  "&code=" +:+ pretty code +:+ "&url=" +:+ url.

(** The listener of each event, for the view [id] it was attached to. *)
Definition on_event (id : N) (ev : WcEvent) (st : State) : State :=
  match ev with
  | DidStartLoading => setTabConfig id {[ "isLoading" := Bool true ]} st
  | DidFailLoad code desc url _ =>
      setTabConfig id {[ "isLoading" := Bool false ]}
        (emit (WcLoadURL id (fail_page_url code desc url)) st)
  | DidStartNavigation href isInPlace isMainFrame =>
      on_did_start_navigation id href isInPlace isMainFrame st
  | WillRedirect href _ _ => on_will_redirect id href st
  | PageTitleUpdated title => setTabConfig id {[ "title" := Str title ]} st
  | PageFaviconUpdated favicons =>
      setTabConfig id
        {[ "favicon" := match favicons with
                        | f :: _ => Str f
                        | [] => Undefined
                        end ]} st
  | DidStopLoading => setTabConfig id {[ "isLoading" := Bool false ]} st
  | DomReady => emit (WcFocus id) st
  end.

(** *** Command sequences *)

(** The tab commands of the control surface.  [OpenTab] and [CloseTab]
    carry the id the platform gives to a view created by the command. *)
Inductive Command : Type :=
| OpenTab (url : option string) (anchor : option N) (vid : N)
| CloseTab (id vid : N)
| SwitchTab (id : N).

Definition run_command (c : Command) (st : State) : State :=
  match c with
  | OpenTab url anchor vid => newTab url anchor vid st
  | CloseTab id vid => closeTab id vid st
  | SwitchTab id => state_of (switchTab id st)
  end.

Definition run_commands (cs : list Command) (st : State) : State :=
  fold_left (λ s c, run_command c s) cs st.

(** The ids of the tab order and the ids with a defined entry in the
    config object agree. *)
Definition key_synchronized (st : State) : Prop :=
  ∀ id : N, id ∈ tabs st ↔ is_Some (js_get (tabConfigs st) id).

(** The shape of the state between commands: the order has no repeated and
    no falsy id, every tab has a live view, and while there is a tab the
    active id is one of the order. *)
Definition shell_invariant (st : State) : Prop :=
  NoDup (tabs st) ∧
  (∀ t, t ∈ tabs st → t ≠ 0%N ∧ is_Some (js_get (views st) t)) ∧
  (tabs st ≠ [] → ∃ a, currentViewId st = Some a ∧ a ∈ tabs st).

(** What the platform and the control surface grant: a new view gets a
    non-zero id that no tab has, and [switch-tab] names a tab of the
    order. *)
Definition command_ok (c : Command) (st : State) : Prop :=
  match c with
  | OpenTab _ _ vid => vid ≠ 0%N ∧ vid ∉ tabs st
  | CloseTab _ vid => vid ≠ 0%N
  | SwitchTab id => id ∈ tabs st
  end.

Fixpoint commands_ok (cs : list Command) (st : State) : Prop :=
  match cs with
  | [] => True
  | c :: cs' => command_ok c st ∧ commands_ok cs' (run_command c st)
  end.

End BrowserLikeWindow.

(** The built-in pages the ['did-start-navigation'] listener knows, in the
    order of its tests: the file name under [main/renderer] and the address
    shown for it. *)
Definition built_in_pages : list (string * string) :=
  [ ("settings", "px://settings"); ("about", "px://about");
    ("help", "px://help"); ("web_fail_code", "px://network-error");
    ("credits", "px://credits") ].

(** The first built-in page, in that order, whose local resource occurs in
    [href]. *)
Definition first_builtin (fileUrl : string → string) (dirname : string)
    (href : string) : option (string * string) :=
  List.find (λ p, includes href (page_locator fileUrl dirname p.1))
    built_in_pages.

(** The tab order [newTab] leaves, read off its first statement. *)
Definition newTab_order (appendTo : option N) (vid : N) (l : list N)
    : list N :=
  match appendTo with
  | Some a =>
      if negb (N.eqb a 0) then splice_insert l (indexOf l a + 1) vid
      else l ++ [vid]
  | None => l ++ [vid]
  end.

(** ** The other handlers of the window *)

Section Handlers.
Context (fileUrl : string → string) (dirname : string) (options : Options)
        (wc_has_method : string → bool).

(** ['url-change']: [this.setTabConfig(this.currentViewId, { url })].
    With no active id the key of the write is [null], which as a property
    name is ['null'] and no TabID: the id-keyed model of the object does
    not hold that entry, and the result is [None]. *)
Definition url_change (url : string) (st : State) : option State :=
  match currentViewId st with
  | Some id => Some (setTabConfig id {[ "url" := Str url ]} st)
  | None => None
  end.

(** The entry [newTab] registers over a prior entry of the id: the blank
    title and the state of a view that has not navigated. *)
Definition newTab_entry_of (prior : option (gmap string value))
    : gmap string value :=
  {[ "title" :=
       Str (default "about:blank" (js_or (blankTitle options) None)) ]} ∪
  <["canGoForward" := Bool false]>
    (<["canGoBack" := Bool false]> (default ∅ prior)).

(** ['url-enter']: [this.loadURL(url)]. *)
Definition url_enter (url : option string) (st : State) : State :=
  loadURL fileUrl dirname url st.

(** The ['closed'] listener of the window, line 203:
    [this.tabs.forEach(id => this.destroyView(id))]. *)
Definition destroy_all_views (st : State) : State :=
  fold_left (λ s id, destroyView id s) (tabs st) st.

(** What reaches the window between two turns of the event loop: a tab
    command, an event of the view of a tab, an address entered, an action
    requested. *)
Inductive Step : Type :=
| StepCommand (c : Command)
| StepEvent (id : N) (ev : WcEvent)
| StepUrlEnter (url : option string)
| StepAct (actionName : string).

Definition run_step (s : Step) (st : State) : State :=
  match s with
  | StepCommand c => run_command fileUrl dirname options c st
  | StepEvent id ev => on_event fileUrl dirname options id ev st
  | StepUrlEnter url => url_enter url st
  | StepAct actionName => webContentsAct wc_has_method actionName st
  end.

Definition run_steps (ss : list Step) (st : State) : State :=
  fold_left (λ s x, run_step x s) ss st.

(** [P] holds of every step in the state it is run in. *)
Fixpoint steps_satisfy (P : Step → State → Prop) (ss : list Step)
    (st : State) : Prop :=
  match ss with
  | [] => True
  | s :: ss' => P s st ∧ steps_satisfy P ss' (run_step s st)
  end.

End Handlers.

(** A step the platform and the control surface can issue: a command as in
    [command_ok]; an event comes from the view of a tab of the order. *)
Definition step_ok (s : Step) (st : State) : Prop :=
  match s with
  | StepCommand c => command_ok c st
  | StepEvent id _ => id ∈ tabs st
  | StepUrlEnter _ => True
  | StepAct _ => True
  end.

(** Events come from views of tabs of the order; nothing is asked of the
    other steps. *)
Definition event_of_open_tab (s : Step) (st : State) : Prop :=
  match s with
  | StepEvent id _ => id ∈ tabs st
  | _ => True
  end.

(** ** The address bar of the control surface (control-moon.js) *)

(** The code units that [String.prototype.trim] strips, among those a
    one-byte character holds: tab, line feed, vertical tab, form feed,
    carriage return, space and no-break space. *)
Definition is_whitespace (c : Ascii.ascii) : bool :=
  bool_decide (Ascii.nat_of_ascii c ∈ [9; 10; 11; 12; 13; 32; 160]%nat).

(** The line terminators, which [.] of a regular expression does not
    match. *)
Definition is_line_terminator (c : Ascii.ascii) : bool :=
  bool_decide (Ascii.nat_of_ascii c ∈ [10; 13]%nat).

Fixpoint trimStart (s : string) : string :=
  match s with
  | EmptyString => EmptyString
  | String c r => if is_whitespace c then trimStart r else s
  end.

Fixpoint trimEnd (s : string) : string :=
  match s with
  | EmptyString => EmptyString
  | String c r =>
      match trimEnd r with
      | EmptyString => if is_whitespace c then EmptyString
                       else String c EmptyString
      | r' => String c r'
      end
  end.

(** [s.trim()]. *)
Definition js_trim (s : string) : string := trimEnd (trimStart s).

(** [/^.*?:\/\//.test(v)]: [://] occurs in [v] with no line terminator
    before it. *)
Fixpoint has_scheme (v : string) : bool :=
  starts_with "://" v ||
  match v with
  | EmptyString => false
  | String c r => if is_line_terminator c then false else has_scheme r
  end.

(** [`${x}`] for a string or [undefined]. *)
Definition template (x : option string) : string :=
  match x with
  | Some s => s
  | None => "undefined"
  end.

Section Control.

(** [isUri] is the truth value of [validUrl.isUri(v)], of the module
    [prod_lib/isUrl.js]; [search_engine] is what
    [search_engines.get(settings_data.get('default_search'))] returns, a
    string or [undefined]. *)
Context (isUri : string → bool) (search_engine : option string).

(** [onPressEnter]: the address [action.sendEnterURL] is called with, if it
    is called. *)
Definition onPressEnter (keyCode : Z) (value : string) : option string :=
  if bool_decide (keyCode ≠ 13) then None
  else
    let v := js_trim value in
    if bool_decide (v = "") then None
    else
      Some (if negb (has_scheme v) then
              if isUri v then "http://" +:+ v
              else template search_engine +:+ v
            else v).

End Control.

(** ** A concrete shell *)

(** [file-url] on an absolute POSIX path in which [encodeURI] escapes
    nothing. *)
Definition posix_fileUrl (path : string) : string := "file://" +:+ path.

Definition app_dirname : string := "/app".

Definition app_options : Options :=
  {| startPage := Some "https://example.com/"; blankPage := None;
     blankTitle := None |}.

(** Navigation methods of a [webContents]. *)
Definition nav_methods (name : string) : bool :=
  bool_decide (name ∈ ["goBack"; "goForward"; "reload"; "stop"]).

(** After ['control-ready']: one tab, id 1, active. *)
Definition shell_started : State :=
  control_ready posix_fileUrl app_dirname app_options 1%N initial_state.

(** Two more tabs opened from the control surface: order [1; 2; 3], the
    last one active. *)
Definition three_tabs : State :=
  newTab posix_fileUrl app_dirname app_options (Some "https://c.example/")
    None 3%N
    (newTab posix_fileUrl app_dirname app_options
       (Some "https://b.example/") None 2%N shell_started).

(** The same with the middle tab active. *)
Definition three_tabs_middle_active : State :=
  state_of (switchTab 2%N three_tabs).

(** A config entry that outlived its view. *)
Definition entry_without_view : State :=
  {| defCurrentViewId := None;
     defTabConfigs :=
       {[ 1%N := Some {[ "title" := Str "old"; "canGoBack" := Bool true;
                         "canGoForward" := Bool false ]} ]};
     views := ∅; tabs := [1%N]; ipc := false; log := [] |}.

(** A session: two tabs opened, the second from the first, with events,
    an address, a switch, an action and a close in between. *)
Definition session : list Step :=
  [ StepCommand (OpenTab (Some "https://a.example/") None 1%N);
    StepEvent 1%N (PageTitleUpdated "A");
    StepCommand (OpenTab None (Some 1%N) 2%N);
    StepEvent 1%N (DidStartNavigation "https://a.example/x" false true);
    StepUrlEnter (Some "px://settings");
    StepCommand (SwitchTab 1%N);
    StepAct "reload";
    StepCommand (CloseTab 1%N 3%N) ].

(** A search engine of the settings store, and a resolver that takes no
    text for a URI. *)
Definition search_address : string := "https://www.google.com/search?q=".

Definition no_uri (v : string) : bool := false.

(** * Properties *)

(** ** Arrays and strings *)

Lemma indexOf_absent (l : list N) (x : N) : x ∉ l → indexOf l x = -1.
Proof.
  induction l as [|y r IH]; intros Hx; simpl; [done|].
  apply not_elem_of_cons in Hx as [Hne Hr].
  rewrite decide_False by done. by rewrite IH.
Qed.

Lemma indexOf_first (pre post : list N) (x : N) :
  x ∉ pre → indexOf (pre ++ x :: post) x = Z.of_nat (length pre).
Proof.
  induction pre as [|y r IH]; intros Hx; simpl.
  - by rewrite decide_True.
  - apply not_elem_of_cons in Hx as [Hne Hr].
    rewrite decide_False by done. rewrite IH by done.
    destruct (Z.of_nat (length r) =? -1) eqn:E; lia.
Qed.

Lemma elem_of_splice_insert (l : list N) (s : Z) (x y : N) :
  y ∈ splice_insert l s x ↔ y = x ∨ y ∈ l.
Proof.
  unfold splice_insert; cbv zeta.
  set (n := Z.to_nat _).
  rewrite elem_of_app, elem_of_cons.
  assert (y ∈ l ↔ y ∈ take n l ∨ y ∈ drop n l) as ->
    by (by rewrite <- elem_of_app, take_drop).
  tauto.
Qed.

Lemma splice_insert_after (pre post : list N) (a x : N) :
  splice_insert (pre ++ a :: post) (Z.of_nat (length pre) + 1) x =
  pre ++ a :: x :: post.
Proof.
  unfold splice_insert; cbv zeta.
  destruct (Z.ltb_spec (Z.of_nat (length pre) + 1) 0) as [?|_]; [lia|].
  set (n := Z.to_nat _).
  assert (n = length (pre ++ [a])) as ->
    by (subst n; rewrite !length_app; simpl; lia).
  replace (pre ++ a :: post) with ((pre ++ [a]) ++ post)
    by (by rewrite <- app_assoc).
  rewrite take_app_length, drop_app_length.
  by rewrite <- app_assoc.
Qed.

Lemma splice_insert_front (l : list N) (x : N) :
  splice_insert l 0 x = x :: l.
Proof.
  unfold splice_insert. simpl.
  replace (Z.to_nat (Z.min 0 (Z.of_nat (length l)))) with O by lia.
  by rewrite take_0, drop_0.
Qed.

Lemma elem_of_remove_id (id x : N) (l : list N) :
  x ∈ remove_id id l ↔ x ∈ l ∧ x ≠ id.
Proof. unfold remove_id. rewrite list_elem_of_filter. tauto. Qed.

Lemma remove_id_absent (id : N) (l : list N) : id ∉ l → remove_id id l = l.
Proof.
  induction l as [|y r IH]; intros Hx; [done|].
  apply not_elem_of_cons in Hx as [Hne Hr].
  unfold remove_id in *. rewrite filter_cons_True by done. by rewrite IH.
Qed.

Lemma remove_id_split (id : N) (pre post : list N) :
  id ∉ pre → id ∉ post → remove_id id (pre ++ id :: post) = pre ++ post.
Proof.
  intros Hpre Hpost. unfold remove_id.
  rewrite filter_app, filter_cons_False by (intros H; by apply H).
  fold (remove_id id pre). fold (remove_id id post).
  by rewrite !remove_id_absent.
Qed.

Lemma starts_with_app (p r s : string) :
  starts_with (p +:+ r) s = true → starts_with p s = true.
Proof.
  revert s. induction p as [|a p IH]; intros s; simpl; [done|].
  destruct s as [|b s]; [done|]. case_decide; [apply IH | done].
Qed.

Lemma includes_app (s p r : string) :
  includes s (p +:+ r) = true → includes s p = true.
Proof.
  induction s as [|c s IH]; simpl.
  - rewrite !orb_false_r. apply starts_with_app.
  - rewrite !orb_true_iff. intros [H|H]; [left | right; auto].
    by apply (starts_with_app p r).
Qed.

Lemma js_get_insert {V : Type} (m : gmap N (option V)) (k j : N)
    (v : option V) :
  js_get (<[k := v]> m) j = if decide (k = j) then v else js_get m j.
Proof. unfold js_get. rewrite lookup_insert. by case_decide. Qed.

Lemma currentViewKey_live (id : N) (v : View) (st : State) :
  currentViewId st = Some id →
  id ≠ 0%N →
  js_get (views st) id = Some v →
  currentViewKey st = Some id.
Proof.
  intros Hcur Hid Hview. unfold currentViewKey, currentView.
  rewrite Hcur. simpl. destruct (N.eqb_spec id 0) as [?|_]; [done|].
  simpl. by rewrite Hview.
Qed.

(** ** What each method leaves untouched *)

Section Frame.
Context (fileUrl : string → string) (dirname : string) (options : Options).

Ltac unfold_ops :=
  unfold setTabConfig, set_tabConfigs, setCurrentView, set_currentViewId,
    setContentBounds, destroyView, loadURL, mark_initialized, tabConfigs,
    currentViewKey, currentView, currentViewId, emit, set_tabs, set_views,
    set_ipc.

(** Case analysis on the innermost test first, until the field is read off
    the record. *)
Ltac frame :=
  intros; unfold_ops; simpl;
  repeat (try (progress unfold_ops; simpl);
          match goal with
          | |- context [match ?x with _ => _ end] =>
              lazymatch x with
              | context [match _ with _ => _ end] => fail
              | _ => destruct x eqn:?; simpl
              end
          end);
  try reflexivity; try (simpl in *; congruence).

Lemma setCurrentView_tabs v st : tabs (setCurrentView v st) = tabs st.
Proof. frame. Qed.

Lemma setCurrentView_views v st : views (setCurrentView v st) = views st.
Proof. frame. Qed.

Lemma setCurrentView_defTabConfigs v st :
  defTabConfigs (setCurrentView v st) = defTabConfigs st.
Proof. frame. Qed.

Lemma setCurrentView_ipc v st : ipc (setCurrentView v st) = ipc st.
Proof. frame. Qed.

Lemma setCurrentView_current v st :
  defCurrentViewId (setCurrentView v st) =
  if truthy_id v then v else defCurrentViewId st.
Proof. frame. Qed.

Lemma setTabConfig_tabs id kv st : tabs (setTabConfig id kv st) = tabs st.
Proof. frame. Qed.

Lemma setTabConfig_views id kv st : views (setTabConfig id kv st) = views st.
Proof. frame. Qed.

Lemma setTabConfig_current id kv st :
  defCurrentViewId (setTabConfig id kv st) = defCurrentViewId st.
Proof. frame. Qed.

Lemma setTabConfig_ipc id kv st : ipc (setTabConfig id kv st) = ipc st.
Proof. frame. Qed.

Lemma setTabConfig_other id kv st j :
  j ≠ id →
  js_get (defTabConfigs (setTabConfig id kv st)) j =
  js_get (defTabConfigs st) j.
Proof.
  intros Hne.
  assert (∀ e, js_get (<[id := e]> (defTabConfigs st)) j =
               js_get (defTabConfigs st) j) as Hins
    by (intros e; rewrite js_get_insert; by rewrite decide_False).
  frame; apply Hins.
Qed.

Lemma setTabConfig_defined id kv st :
  is_Some (js_get (defTabConfigs (setTabConfig id kv st)) id).
Proof.
  assert (∀ e, is_Some (js_get (<[id := Some e]> (defTabConfigs st)) id))
    as Hins by (intros e; rewrite js_get_insert, decide_True; done).
  frame; apply Hins.
Qed.

Lemma loadURL_tabs url st : tabs (loadURL fileUrl dirname url st) = tabs st.
Proof. frame. Qed.

Lemma loadURL_defTabConfigs url st :
  defTabConfigs (loadURL fileUrl dirname url st) = defTabConfigs st.
Proof. frame. Qed.

Lemma loadURL_current url st :
  defCurrentViewId (loadURL fileUrl dirname url st) = defCurrentViewId st.
Proof. frame. Qed.

Lemma loadURL_ipc url st : ipc (loadURL fileUrl dirname url st) = ipc st.
Proof. frame. Qed.

Lemma destroyView_tabs id st : tabs (destroyView id st) = tabs st.
Proof. frame. Qed.

Lemma destroyView_defTabConfigs id st :
  defTabConfigs (destroyView id st) = defTabConfigs st.
Proof. frame. Qed.

Lemma destroyView_current id st :
  defCurrentViewId (destroyView id st) = defCurrentViewId st.
Proof. frame. Qed.

Lemma destroyView_ipc id st : ipc (destroyView id st) = ipc st.
Proof. frame. Qed.

Lemma destroyView_gone id st : js_get (views (destroyView id st)) id = None.
Proof.
  unfold destroyView. destruct (js_get (views st) id) eqn:E; [|done].
  simpl. by rewrite js_get_insert, decide_True.
Qed.

Lemma destroyView_other id st j :
  j ≠ id → js_get (views (destroyView id st)) j = js_get (views st) j.
Proof.
  intros Hne. unfold destroyView. destruct (js_get (views st) id); [|done].
  simpl. by rewrite js_get_insert, decide_False.
Qed.

Lemma closeTab_remove_tabs id st :
  tabs (closeTab_remove id st) = remove_id id (tabs st).
Proof. unfold closeTab_remove. frame. Qed.

Lemma closeTab_remove_defTabConfigs id st :
  defTabConfigs (closeTab_remove id st) = <[id := None]> (defTabConfigs st).
Proof. unfold closeTab_remove. frame. Qed.

Lemma closeTab_remove_views id st :
  views (closeTab_remove id st) = views st.
Proof. unfold closeTab_remove. frame. Qed.

Lemma closeTab_remove_current id st :
  defCurrentViewId (closeTab_remove id st) = defCurrentViewId st.
Proof. unfold closeTab_remove. frame. Qed.

Lemma closeTab_remove_ipc id st : ipc (closeTab_remove id st) = ipc st.
Proof. unfold closeTab_remove. frame. Qed.

Lemma newTab_tabs url appendTo vid st :
  tabs (newTab fileUrl dirname options url appendTo vid st) =
  newTab_order appendTo vid (tabs st).
Proof.
  unfold newTab, newTab_order.
  rewrite setTabConfig_tabs, loadURL_tabs, setCurrentView_tabs.
  destruct appendTo as [a|]; simpl; [|done].
  by destruct (negb (a =? 0)%N).
Qed.

Lemma newTab_current url appendTo vid st :
  defCurrentViewId (newTab fileUrl dirname options url appendTo vid st) =
  if negb (N.eqb vid 0) then Some vid else defCurrentViewId st.
Proof.
  unfold newTab.
  rewrite setTabConfig_current, loadURL_current, setCurrentView_current.
  simpl. destruct (negb (vid =? 0)%N); [done|].
  destruct appendTo as [a|]; simpl; [|done].
  by destruct (negb (a =? 0)%N).
Qed.

Lemma newTab_other url appendTo vid st j :
  j ≠ vid →
  js_get (defTabConfigs (newTab fileUrl dirname options url appendTo vid st))
    j = js_get (defTabConfigs st) j.
Proof.
  intros Hne. unfold newTab.
  rewrite setTabConfig_other by done.
  rewrite loadURL_defTabConfigs, setCurrentView_defTabConfigs. simpl.
  destruct appendTo as [a|]; simpl; [|done].
  by destruct (negb (a =? 0)%N).
Qed.

Lemma newTab_defined url appendTo vid st :
  is_Some
    (js_get (defTabConfigs
               (newTab fileUrl dirname options url appendTo vid st)) vid).
Proof. unfold newTab. apply setTabConfig_defined. Qed.

End Frame.

Lemma elem_of_newTab_order (appendTo : option N) (vid y : N) (l : list N) :
  y ∈ newTab_order appendTo vid l ↔ y = vid ∨ y ∈ l.
Proof.
  unfold newTab_order.
  destruct appendTo as [a|]; [destruct (negb (a =? 0)%N)|].
  - apply elem_of_splice_insert.
  - rewrite elem_of_app, list_elem_of_singleton. tauto.
  - rewrite elem_of_app, list_elem_of_singleton. tauto.
Qed.

(** ** What [setCurrentView] does, field by field *)

Lemma truthy_id_nonzero (id : N) : id ≠ 0%N → truthy_id (Some id) = true.
Proof. intros Hid. simpl. by destruct (N.eqb_spec id 0). Qed.

Lemma currentViewKey_gone (id : N) (st : State) :
  currentViewId st = Some id →
  js_get (views st) id = None →
  currentViewKey st = None.
Proof.
  intros Hcur Hview. unfold currentViewKey, currentView. rewrite Hcur.
  destruct (truthy_id (Some id)); [|done]. by rewrite Hview.
Qed.

Lemma setCurrentView_live (id : N) (v : View) (st : State) :
  id ≠ 0%N →
  js_get (views st) id = Some v →
  setCurrentView (Some id) st =
  {| defCurrentViewId := Some id; defTabConfigs := defTabConfigs st;
     views := views st; tabs := tabs st; ipc := ipc st;
     log := log st ++
            [WinRemoveView (currentViewKey st); WinAddView (Some id);
             SetBounds id] ++
            (if ipc st then [ActiveUpdate id] else []) |}.
Proof.
  intros Hid Hview. unfold setCurrentView.
  rewrite truthy_id_nonzero by done. simpl. rewrite Hview.
  unfold set_currentViewId, setContentBounds.
  match goal with
  | |- context [match currentViewKey ?s with _ => _ end] =>
      rewrite (currentViewKey_live id v s) by done
  end.
  simpl. destruct (ipc st); unfold emit; simpl; by rewrite <- !app_assoc.
Qed.

Lemma setCurrentView_gone (id : N) (st : State) :
  id ≠ 0%N →
  js_get (views st) id = None →
  setCurrentView (Some id) st =
  {| defCurrentViewId := Some id; defTabConfigs := defTabConfigs st;
     views := views st; tabs := tabs st; ipc := ipc st;
     log := log st ++
            [WinRemoveView (currentViewKey st); WinAddView None] ++
            (if ipc st then [ActiveUpdate id] else []) |}.
Proof.
  intros Hid Hview. unfold setCurrentView.
  rewrite truthy_id_nonzero by done. simpl. rewrite Hview.
  unfold set_currentViewId, setContentBounds.
  match goal with
  | |- context [match currentViewKey ?s with _ => _ end] =>
      rewrite (currentViewKey_gone id s) by done
  end.
  simpl. destruct (ipc st); unfold emit; simpl; by rewrite <- !app_assoc.
Qed.

(** ** The tab commands *)

Section Commands.
Context (fileUrl : string → string) (dirname : string) (options : Options).

Ltac unfold_closeTab := unfold closeTab, closeTab_reopen.
Ltac unfold_newTab := unfold newTab.

Local Abbreviation newTab := (newTab fileUrl dirname options).
Local Abbreviation closeTab := (closeTab fileUrl dirname options).
Local Abbreviation closeTab_reopen := (closeTab_reopen fileUrl dirname options).
Local Abbreviation run_command := (run_command fileUrl dirname options).
Local Abbreviation run_commands := (run_commands fileUrl dirname options).

Lemma closeTab_switch_tabs id st : tabs (closeTab_switch id st) = tabs st.
Proof.
  unfold closeTab_switch. case_decide; [|done]. apply setCurrentView_tabs.
Qed.

Lemma closeTab_switch_defTabConfigs id st :
  defTabConfigs (closeTab_switch id st) = defTabConfigs st.
Proof.
  unfold closeTab_switch. case_decide; [|done].
  apply setCurrentView_defTabConfigs.
Qed.

Lemma closeTab_switch_views id st :
  views (closeTab_switch id st) = views st.
Proof.
  unfold closeTab_switch. case_decide; [|done]. apply setCurrentView_views.
Qed.

Lemma closeTab_switch_ipc id st : ipc (closeTab_switch id st) = ipc st.
Proof.
  unfold closeTab_switch. case_decide; [|done]. apply setCurrentView_ipc.
Qed.

(** The state [close-tab] reaches before it tests [this.tabs.length]. *)
Lemma closeTab_before_reopen_tabs id st :
  tabs (destroyView id (closeTab_remove id (closeTab_switch id st))) =
  remove_id id (tabs st).
Proof.
  by rewrite destroyView_tabs, closeTab_remove_tabs, closeTab_switch_tabs.
Qed.

Lemma closeTab_before_reopen_defTabConfigs id st :
  defTabConfigs (destroyView id (closeTab_remove id (closeTab_switch id st)))
  = <[id := None]> (defTabConfigs st).
Proof.
  by rewrite destroyView_defTabConfigs, closeTab_remove_defTabConfigs,
    closeTab_switch_defTabConfigs.
Qed.

Lemma key_synchronized_newTab url appendTo vid st :
  key_synchronized st → key_synchronized (newTab url appendTo vid st).
Proof.
  unfold key_synchronized, tabConfigs. intros Hst j.
  rewrite newTab_tabs, elem_of_newTab_order.
  destruct (decide (j = vid)) as [->|Hne].
  - split; [intros _; apply newTab_defined | by left].
  - rewrite newTab_other by done. rewrite Hst.
    split; [by intros [?|?] | by right].
Qed.

Lemma key_synchronized_before_reopen id st :
  key_synchronized st →
  key_synchronized
    (destroyView id (closeTab_remove id (closeTab_switch id st))).
Proof.
  unfold key_synchronized, tabConfigs. intros Hst j.
  rewrite closeTab_before_reopen_tabs, closeTab_before_reopen_defTabConfigs.
  rewrite elem_of_remove_id, js_get_insert.
  case_decide as Hj.
  - subst j. split; [by intros [_ ?] | by intros [? ?]].
  - rewrite Hst. split; [by intros [? _] | by split].
Qed.

Lemma key_synchronized_closeTab id vid st :
  key_synchronized st → key_synchronized (closeTab id vid st).
Proof.
  intros Hst. unfold_closeTab.
  pose proof (key_synchronized_before_reopen id st Hst) as Hmid.
  destruct (length _ =? 0)%nat; [by apply key_synchronized_newTab | done].
Qed.

Lemma switchTab_tabs id st : tabs (state_of (switchTab id st)) = tabs st.
Proof.
  unfold switchTab. destruct (currentViewKey _); simpl;
    apply setCurrentView_tabs.
Qed.

Lemma switchTab_defTabConfigs id st :
  defTabConfigs (state_of (switchTab id st)) = defTabConfigs st.
Proof.
  unfold switchTab. destruct (currentViewKey _); simpl;
    apply setCurrentView_defTabConfigs.
Qed.

Lemma key_synchronized_switchTab id st :
  key_synchronized st → key_synchronized (state_of (switchTab id st)).
Proof.
  unfold key_synchronized, tabConfigs. intros Hst j.
  by rewrite switchTab_tabs, switchTab_defTabConfigs.
Qed.

Lemma key_synchronized_run_command c st :
  key_synchronized st → key_synchronized (run_command c st).
Proof.
  destruct c; simpl;
    auto using key_synchronized_newTab, key_synchronized_closeTab,
      key_synchronized_switchTab.
Qed.

Lemma key_synchronized_run_commands cs st :
  key_synchronized st → key_synchronized (run_commands cs st).
Proof.
  revert st. induction cs as [|c cs IH]; intros st Hst; simpl; [done|].
  apply IH. by apply key_synchronized_run_command.
Qed.

Lemma key_synchronized_initial : key_synchronized initial_state.
Proof.
  intros j. simpl. unfold js_get. rewrite lookup_empty.
  split; [by intros ?%elem_of_nil | by intros [? ?]].
Qed.

(** C2: whatever sequence of openTab, closeTab and switchTab commands runs
    from the initial state, after each of them (that is, after every prefix
    of the sequence) the ids of the tab order are exactly the ids whose
    entry in the config object is defined.  An id of a closed tab stays in
    the object as a key bound to [undefined]; reading it gives [undefined],
    as for a key never written. *)
Theorem tabs_and_configs_stay_synchronized (cs : list Command) (n : nat) :
  key_synchronized (run_commands (take n cs) initial_state).
Proof.
  apply key_synchronized_run_commands, key_synchronized_initial.
Qed.

(** The tab [close-tab] switches to: the one after [id], or the first one
    when [id] is last; [id] itself when it is the only tab. *)
Lemma closeTab_next (id : N) (pre post : list N) :
  id ∉ pre →
  let l := pre ++ id :: post in
  js_nth l (if indexOf l id =? Z.of_nat (length l) - 1 then 0
            else indexOf l id + 1)
  = head (post ++ pre ++ [id]).
Proof.
  intros Hpre l. subst l. rewrite indexOf_first by done.
  rewrite length_app; simpl length. unfold js_nth.
  destruct post as [|p post]; simpl length.
  - destruct (Z.eqb_spec (Z.of_nat (length pre))
                (Z.of_nat (length pre + 1) - 1)) as [_|?]; [|lia].
    simpl. by destruct pre.
  - destruct (Z.eqb_spec (Z.of_nat (length pre))
                (Z.of_nat (length pre + S (S (length post))) - 1))
      as [?|_]; [lia|].
    destruct (Z.ltb_spec (Z.of_nat (length pre) + 1) 0) as [?|_]; [lia|].
    replace (Z.to_nat (Z.of_nat (length pre) + 1)) with (length pre + 1)%nat
      by lia.
    rewrite lookup_app_r by lia.
    by replace (length pre + 1 - length pre)%nat with 1%nat by lia.
Qed.

Lemma closeTab_switch_current (id : N) (pre post : list N) (st : State) :
  currentViewId st = Some id →
  tabs st = pre ++ id :: post →
  id ∉ pre →
  Forall (λ t, t ≠ 0%N) (tabs st) →
  defCurrentViewId (closeTab_switch id st) = head (post ++ pre ++ [id]).
Proof.
  intros Hcur Htabs Hpre Hnz. unfold closeTab_switch.
  rewrite decide_True by done.
  rewrite setCurrentView_current, Htabs, closeTab_next by done.
  assert (∃ t, head (post ++ pre ++ [id]) = Some t ∧ t ≠ 0%N)
    as (t & -> & Ht).
  { rewrite Htabs in Hnz.
    apply Forall_app in Hnz as [Hnpre Hnpost].
    apply Forall_cons in Hnpost as [Hid Hnpost].
    destruct post as [|p post]; [destruct pre as [|p pre]|]; simpl.
    - by exists id.
    - exists p. by apply Forall_cons in Hnpre as [? _].
    - exists p. by apply Forall_cons in Hnpost as [? _]. }
  simpl. by destruct (N.eqb_spec t 0).
Qed.

Lemma closeTab_no_reopen (id vid : N) (st : State) :
  remove_id id (tabs st) ≠ [] →
  closeTab id vid st =
  destroyView id (closeTab_remove id (closeTab_switch id st)).
Proof.
  intros Hne. unfold_closeTab.
  rewrite closeTab_before_reopen_tabs.
  by destruct (remove_id id (tabs st)).
Qed.

(** C3: when [close-tab] returns the tab order is not empty.  If dropping
    the closed id empties it, the handler ends with [newTab()] on the
    emptied state: the order is the one new id, which has a config entry
    and, being a non-zero id, is the active id. *)
Theorem closeTab_leaves_a_tab (id vid : N) (st : State) :
  (1 ≤ length (tabs (closeTab id vid st)))%nat ∧
  match remove_id id (tabs st) with
  | [] =>
      closeTab id vid st =
        newTab None None vid
          (destroyView id (closeTab_remove id (closeTab_switch id st))) ∧
      tabs (destroyView id (closeTab_remove id (closeTab_switch id st))) = [] ∧
      tabs (closeTab id vid st) = [vid] ∧
      is_Some (js_get (tabConfigs (closeTab id vid st)) vid) ∧
      currentViewId (closeTab id vid st) =
        (if negb (N.eqb vid 0) then Some vid
         else currentViewId (closeTab_switch id st))
  | t :: l => tabs (closeTab id vid st) = t :: l
  end.
Proof.
  unfold_closeTab.
  pose proof (closeTab_before_reopen_tabs id st) as Hmid.
  destruct (remove_id id (tabs st)) as [|t l] eqn:E; rewrite Hmid; simpl.
  - rewrite newTab_tabs, Hmid. simpl.
    repeat split; [lia.. | apply newTab_defined |].
    unfold currentViewId.
    by rewrite newTab_current, destroyView_current, closeTab_remove_current.
  - rewrite Hmid. simpl. split; [lia | done].
Qed.

(** C1: closing the active tab [id] when the order is [pre ++ id :: post]
    with another tab in it.  The handler first makes [next], the head of
    [post ++ pre], the active id, with the order, the config object and the
    views still as they were; when it returns [next] is active, the order
    is [pre ++ post], and the entry and the view of [id] are gone.  The
    switch comes first: the handler is the removal from the order and the
    config object, then [destroyView], run on the state [setCurrentView]
    leaves, and what it does to the window is, in this order, the view
    taken off and the view of [next] put on (with [active-update] once the
    control is ready), then [tabs-update] with the order [pre ++ post] and
    the entry of [id] undefined, then the destruction of the view of [id]. *)
Theorem closeTab_active_switches_to_next
    (id vid : N) (pre post : list N) (st : State) :
  currentViewId st = Some id →
  tabs st = pre ++ id :: post →
  NoDup (tabs st) →
  Forall (λ t, t ≠ 0%N) (tabs st) →
  pre ++ post ≠ [] →
  ∃ next,
    head (post ++ pre) = Some next ∧
    currentViewId (closeTab_switch id st) = Some next ∧
    tabs (closeTab_switch id st) = tabs st ∧
    defTabConfigs (closeTab_switch id st) = defTabConfigs st ∧
    views (closeTab_switch id st) = views st ∧
    currentViewId (closeTab id vid st) = Some next ∧
    tabs (closeTab id vid st) = pre ++ post ∧
    js_get (defTabConfigs (closeTab id vid st)) id = None ∧
    js_get (views (closeTab id vid st)) id = None ∧
    closeTab_switch id st = setCurrentView (Some next) st ∧
    closeTab id vid st =
      destroyView id (closeTab_remove id (setCurrentView (Some next) st)) ∧
    log (closeTab id vid st) =
      log st ++
      [WinRemoveView (currentViewKey st);
       WinAddView (match js_get (views st) next with
                   | Some _ => Some next
                   | None => None
                   end)] ++
      (match js_get (views st) next with
       | Some _ => [SetBounds next]
       | None => []
       end) ++
      (if ipc st then [ActiveUpdate next] else []) ++
      (if ipc st
       then [TabsUpdate (<[id := None]> (defTabConfigs st)) (pre ++ post)]
       else []) ++
      (match js_get (views st) id with
       | Some _ => [WcDestroy id]
       | None => []
       end).
Proof.
  intros Hcur Htabs Hnd Hnz Hother.
  assert ((id ∉ pre) ∧ (id ∉ post)) as [Hpre Hpost].
  { rewrite Htabs in Hnd. apply NoDup_app in Hnd as (_ & Hd & Hnd').
    apply NoDup_cons in Hnd' as [Hpost _]. split; [|done].
    intros Hin. apply (Hd id Hin). by left. }
  assert (∃ next, head (post ++ pre) = Some next) as [next Hnext].
  { destruct (post ++ pre) eqn:E; [|by eexists].
    apply app_eq_nil in E as [-> ->]. done. }
  assert (head (post ++ pre ++ [id]) = Some next) as Hnext'.
  { rewrite app_assoc. destruct (post ++ pre); [done|]. by simplify_eq/=. }
  exists next.
  pose proof (closeTab_switch_current id pre post st Hcur Htabs Hpre Hnz)
    as Hsw.
  rewrite Hnext' in Hsw.
  assert (remove_id id (tabs st) = pre ++ post) as Hrem
    by (rewrite Htabs; by apply remove_id_split).
  assert (closeTab_switch id st = setCurrentView (Some next) st) as Hfirst.
  { unfold closeTab_switch. rewrite decide_True by done.
    pose proof (closeTab_next id pre post Hpre) as Hn. cbv zeta in Hn.
    by rewrite Htabs, Hn, Hnext'. }
  assert (next ≠ 0%N) as Hnz'.
  { assert (next ∈ tabs st) as Hin.
    { rewrite Htabs. apply head_Some_elem_of in Hnext.
      rewrite !elem_of_app in *. rewrite elem_of_cons. tauto. }
    by apply (proj1 (Forall_forall _ _) Hnz). }
  rewrite (closeTab_no_reopen id vid st) by (by rewrite Hrem).
  rewrite destroyView_gone, destroyView_current, destroyView_tabs,
    destroyView_defTabConfigs, closeTab_remove_current, closeTab_remove_tabs,
    closeTab_remove_defTabConfigs, closeTab_switch_tabs,
    closeTab_switch_defTabConfigs, closeTab_switch_views.
  rewrite js_get_insert, decide_True by done.
  do 10 (split; [done|]).
  split; [by rewrite Hfirst|].
  rewrite Hfirst. unfold destroyView, closeTab_remove.
  destruct (js_get (views st) next) as [v|] eqn:Hv.
  - rewrite (setCurrentView_live next v st) by done.
    unfold set_tabConfigs, set_tabs, tabConfigs, emit. simpl.
    rewrite Hrem.
    destruct (ipc st), (js_get (views st) id) eqn:Hid; simpl;
      rewrite ?Hid; simpl; rewrite <- ?app_assoc; simpl;
      by rewrite ?app_nil_r.
  - rewrite (setCurrentView_gone next st) by done.
    unfold set_tabConfigs, set_tabs, tabConfigs, emit. simpl.
    rewrite Hrem.
    destruct (ipc st), (js_get (views st) id) eqn:Hid; simpl;
      rewrite ?Hid; simpl; rewrite <- ?app_assoc; simpl;
      by rewrite ?app_nil_r.
Qed.

(** C8: closing a tab [id] other than the active tab [a], with [a] in the
    tab order, leaves [a] active.  The order loses [id], the entry and the
    view of [id] become [undefined], and the entries and views of the other
    ids are as before. *)
Theorem closeTab_inactive_keeps_active (id vid a : N) (st : State) :
  currentViewId st = Some a →
  a ≠ id →
  a ∈ tabs st →
  currentViewId (closeTab id vid st) = Some a ∧
  tabs (closeTab id vid st) = remove_id id (tabs st) ∧
  js_get (defTabConfigs (closeTab id vid st)) id = None ∧
  js_get (views (closeTab id vid st)) id = None ∧
  ∀ j, j ≠ id →
    js_get (defTabConfigs (closeTab id vid st)) j =
      js_get (defTabConfigs st) j ∧
    js_get (views (closeTab id vid st)) j = js_get (views st) j.
Proof.
  intros Hcur Hne Hin.
  assert (closeTab_switch id st = st) as Hsw.
  { unfold closeTab_switch. rewrite Hcur.
    rewrite decide_False; [done | congruence]. }
  assert (remove_id id (tabs st) ≠ []) as Hrem.
  { intros E. assert (a ∈ remove_id id (tabs st)) as Ha
      by (by apply elem_of_remove_id).
    rewrite E in Ha. by apply elem_of_nil in Ha. }
  rewrite (closeTab_no_reopen id vid st) by done. rewrite Hsw.
  rewrite destroyView_gone, destroyView_current, destroyView_tabs,
    destroyView_defTabConfigs, closeTab_remove_current, closeTab_remove_tabs,
    closeTab_remove_defTabConfigs.
  rewrite js_get_insert, decide_True by done.
  repeat split; try done.
  - rewrite js_get_insert. by rewrite decide_False.
  - rewrite destroyView_other, closeTab_remove_views; done.
Qed.

(** C10: closing the active tab [id] when it is the only tab, with the
    control channel set up and the view of [id] alive.  The handler
    re-activates [id] and replies [active-update] for it; after the removal
    and [destroyView] the active id is still [id], whose view is gone and
    whose tab is no longer in the order; the handler then returns what
    [newTab()] makes of that state, where the new id [vid] is active. *)
Theorem closeTab_only_tab_reactivates_closed
    (id vid : N) (v : View) (st : State) :
  tabs st = [id] →
  currentViewId st = Some id →
  id ≠ 0%N →
  js_get (views st) id = Some v →
  ipc st = true →
  vid ≠ 0%N →
  let s1 := closeTab_switch id st in
  let s3 := destroyView id (closeTab_remove id s1) in
  currentViewId s1 = Some id ∧
  log s1 = log st ++ [WinRemoveView (Some id); WinAddView (Some id);
                      SetBounds id; ActiveUpdate id] ∧
  log s3 = log s1 ++ [TabsUpdate (<[id := None]> (defTabConfigs st)) [];
                      WcDestroy id] ∧
  currentViewId s3 = Some id ∧
  js_get (views s3) id = None ∧
  currentView s3 = None ∧
  tabs s3 = [] ∧
  closeTab id vid st = newTab None None vid s3 ∧
  currentViewId (closeTab id vid st) = Some vid ∧
  tabs (closeTab id vid st) = [vid].
Proof.
  intros Htabs Hcur Hid Hview Hipc Hvid s1 s3.
  assert (truthy_id (Some id) = true) as Htr
    by (simpl; by destruct (N.eqb_spec id 0)).
  assert (s1 = set_currentViewId id
                 (emit (WinAddView (Some id))
                    (emit (WinRemoveView (Some id)) st))) as Hs1.
  { subst s1. unfold closeTab_switch. rewrite decide_True by done.
    rewrite Htabs. simpl indexOf. rewrite decide_True by done. simpl.
    unfold js_nth. simpl. unfold setCurrentView. rewrite Htr.
    rewrite (currentViewKey_live id v st) by done. simpl. by rewrite Hview. }
  assert (defCurrentViewId s1 = Some id ∧
          log s1 = log st ++ [WinRemoveView (Some id); WinAddView (Some id);
                              SetBounds id; ActiveUpdate id] ∧
          views s1 = views st ∧ ipc s1 = true ∧ tabs s1 = [id] ∧
          defTabConfigs s1 = defTabConfigs st)
    as (Hc1 & Hl1 & Hv1 & Hi1 & Ht1 & Hf1).
  { rewrite Hs1. unfold set_currentViewId, setContentBounds.
    rewrite (currentViewKey_live id v) by done. simpl.
    rewrite Hipc. simpl. rewrite <- !app_assoc. by repeat split. }
  assert (closeTab_remove id s1 =
          emit (TabsUpdate (<[id := None]> (defTabConfigs st)) [])
            {| defCurrentViewId := Some id;
               defTabConfigs := <[id := None]> (defTabConfigs st);
               views := views st; tabs := []; ipc := true; log := log s1 |})
    as Hrm.
  { unfold closeTab_remove, set_tabConfigs, set_tabs, tabConfigs. simpl.
    rewrite Hi1, Ht1, Hc1, Hv1, Hf1. unfold remove_id.
    rewrite filter_cons_False by (intros H; by apply H). done. }
  assert (s3 = set_views (<[id := None]> (views st))
                 (emit (WcDestroy id) (closeTab_remove id s1))) as Hs3.
  { subst s3. unfold destroyView. rewrite closeTab_remove_views, Hv1.
    by rewrite Hview. }
  assert (tabs s3 = []) as Ht3 by (rewrite Hs3, Hrm; done).
  assert (closeTab id vid st = newTab None None vid s3) as Hfinal.
  { unfold_closeTab.
    fold s1. fold s3. by rewrite Ht3. }
  repeat split; try done.
  - rewrite Hs3, Hrm. simpl. by rewrite <- app_assoc.
  - rewrite Hs3, Hrm. done.
  - rewrite Hs3. simpl. by rewrite js_get_insert, decide_True.
  - unfold currentView, currentViewId. rewrite Hs3, Hrm. simpl.
    destruct (negb (id =? 0)%N); [|done].
    by rewrite js_get_insert, decide_True.
  - rewrite Hfinal, newTab_current.
    by destruct (N.eqb_spec vid 0).
  - rewrite Hfinal, newTab_tabs, Ht3. done.
Qed.

(** *** The shape of the state between commands *)

Lemma splice_insert_Permutation (l : list N) (s : Z) (x : N) :
  splice_insert l s x ≡ₚ x :: l.
Proof.
  unfold splice_insert; cbv zeta. set (n := Z.to_nat _).
  rewrite <- Permutation_middle. by rewrite take_drop.
Qed.

Lemma newTab_order_Permutation (appendTo : option N) (vid : N)
    (l : list N) :
  newTab_order appendTo vid l ≡ₚ vid :: l.
Proof.
  unfold newTab_order.
  destruct appendTo as [a|]; [destruct (negb (a =? 0)%N)|].
  - apply splice_insert_Permutation.
  - by rewrite Permutation_app_comm.
  - by rewrite Permutation_app_comm.
Qed.

Lemma loadURL_views_live url st t :
  is_Some (js_get (views (loadURL fileUrl dirname url st)) t) ↔
  is_Some (js_get (views st) t).
Proof.
  unfold loadURL.
  destruct url as [u|]; [|done].
  destruct (currentView st) as [v|]; [|done].
  destruct (currentViewId st) as [id|]; [|done].
  destruct (truthy_str (Some u)); [|done].
  destruct (wc_marks v); [done|].
  unfold setContentBounds. destruct (currentViewKey _); simpl;
    unfold mark_initialized; simpl;
    (destruct (js_get (views st) id) as [w|] eqn:E; [|done]); simpl;
    rewrite js_get_insert; case_decide; subst; rewrite ?E; done.
Qed.

Lemma newTab_views_live url appendTo vid st t :
  is_Some (js_get (views (newTab url appendTo vid st)) t) ↔
  t = vid ∨ is_Some (js_get (views st) t).
Proof.
  unfold_newTab.
  rewrite setTabConfig_views, loadURL_views_live, setCurrentView_views.
  simpl. rewrite js_get_insert.
  assert (views (if truthy_id appendTo
                 then match appendTo with
                      | Some a =>
                          set_tabs (splice_insert (tabs st)
                                      (indexOf (tabs st) a + 1) vid) st
                      | None => st
                      end
                 else set_tabs (tabs st ++ [vid]) st) = views st) as ->
    by (destruct appendTo as [a|]; simpl; [by destruct (negb _)|done]).
  case_decide; subst; split; eauto. by intros [?|?].
Qed.

Lemma shell_invariant_newTab url appendTo vid st :
  shell_invariant st → vid ≠ 0%N → vid ∉ tabs st →
  shell_invariant (newTab url appendTo vid st).
Proof.
  intros (Hnd & Hall & Hact) Hvid Hfresh. unfold shell_invariant.
  rewrite newTab_tabs. unfold currentViewId. rewrite newTab_current.
  destruct (N.eqb_spec vid 0) as [?|_]; [done|]. simpl.
  split; [|split].
  - rewrite newTab_order_Permutation. by apply NoDup_cons.
  - intros t [->|Hin]%elem_of_newTab_order.
    + split; [done|]. apply newTab_views_live. by left.
    + split; [by apply Hall|]. apply newTab_views_live. right. by apply Hall.
  - intros _. exists vid. split; [done|].
    apply elem_of_newTab_order. by left.
Qed.

Lemma NoDup_remove_id (id : N) (l : list N) :
  NoDup l → NoDup (remove_id id l).
Proof. apply NoDup_filter. Qed.

Lemma shell_invariant_closeTab id vid st :
  shell_invariant st → vid ≠ 0%N → shell_invariant (closeTab id vid st).
Proof.
  intros (Hnd & Hall & Hact) Hvid.
  set (mid := destroyView id (closeTab_remove id (closeTab_switch id st))).
  assert (tabs mid = remove_id id (tabs st)) as Hmt
    by apply closeTab_before_reopen_tabs.
  assert (NoDup (tabs mid)) as Hmnd
    by (rewrite Hmt; by apply NoDup_remove_id).
  assert (∀ t, t ∈ tabs mid → t ≠ 0%N ∧ is_Some (js_get (views mid) t))
    as Hmall.
  { intros t. rewrite Hmt, elem_of_remove_id. intros [Hin Hne].
    split; [by apply Hall|]. subst mid.
    rewrite destroyView_other by done.
    rewrite closeTab_remove_views, closeTab_switch_views. by apply Hall. }
  destruct (tabs mid) as [|t0 l0] eqn:Hmid.
  - assert (closeTab id vid st = newTab None None vid mid) as ->
      by (unfold_closeTab; fold mid;
          by rewrite Hmid).
    apply shell_invariant_newTab; [|done|rewrite Hmid; apply not_elem_of_nil].
    split; [|split]; rewrite ?Hmid;
      [done | by intros t ?%elem_of_nil | done].
  - assert (closeTab id vid st = mid) as ->.
    { apply closeTab_no_reopen. by rewrite <- Hmt. }
    split; [|split]; [by rewrite Hmid | by rewrite Hmid |].
    intros _. rewrite Hmid, Hmt.
    assert (tabs st ≠ []) as Hne by (intros E; by rewrite E in Hmt).
    destruct (Hact Hne) as (a & Hcur & Hin).
    unfold currentViewId in *. subst mid.
    rewrite destroyView_current, closeTab_remove_current.
    destruct (decide (a = id)) as [->|Hai].
    + apply list_elem_of_split in Hin as (pre & post & Htabs).
      assert ((id ∉ pre) ∧ (id ∉ post)) as [Hpre Hpost].
      { rewrite Htabs in Hnd. apply NoDup_app in Hnd as (_ & Hd & Hnd').
        apply NoDup_cons in Hnd' as [Hpost _]. split; [|done].
        intros Hin. apply (Hd id Hin). by left. }
      rewrite (closeTab_switch_current id pre post) by
        (try done; apply Forall_forall; intros t Ht; by apply Hall).
      rewrite Htabs, remove_id_split in Hmt by done.
      rewrite Htabs, remove_id_split by done.
      assert (∃ next, head (post ++ pre) = Some next) as [next Hnext].
      { destruct (post ++ pre) eqn:E; [|by eexists].
        apply app_eq_nil in E as [-> ->]. done. }
      exists next. split.
      * rewrite app_assoc. destruct (post ++ pre); [done|]. by simplify_eq/=.
      * apply head_Some_elem_of in Hnext.
        apply elem_of_app. apply elem_of_app in Hnext. tauto.
    + exists a. split.
      * unfold closeTab_switch, currentViewId. rewrite Hcur.
        rewrite decide_False; [done | congruence].
      * by apply elem_of_remove_id.
Qed.

Lemma shell_invariant_switchTab id st :
  shell_invariant st → id ∈ tabs st →
  shell_invariant (state_of (switchTab id st)).
Proof.
  intros (Hnd & Hall & Hact) Hin. unfold shell_invariant.
  rewrite switchTab_tabs.
  assert (views (state_of (switchTab id st)) = views st) as ->
    by (unfold switchTab; destruct (currentViewKey _); simpl;
        apply setCurrentView_views).
  assert (currentViewId (state_of (switchTab id st)) = Some id) as ->.
  { unfold switchTab, currentViewId.
    destruct (currentViewKey _); simpl; rewrite setCurrentView_current;
      simpl; destruct (N.eqb_spec id 0) as [E|_]; try done;
      by destruct (Hall id Hin). }
  split; [|split]; [done | done |]. intros _. by exists id.
Qed.

Lemma shell_invariant_run_command c st :
  shell_invariant st → command_ok c st →
  shell_invariant (run_command c st).
Proof.
  destruct c; simpl.
  - intros ? [? ?]. by apply shell_invariant_newTab.
  - intros ? ?. by apply shell_invariant_closeTab.
  - intros ? ?. by apply shell_invariant_switchTab.
Qed.

(** Every state reached from the initial one by commands the platform and
    the control surface can issue has that shape. *)
Lemma shell_invariant_run_commands cs st :
  shell_invariant st → commands_ok fileUrl dirname options cs st →
  shell_invariant (run_commands cs st).
Proof.
  revert st. induction cs as [|c cs IH]; intros st Hst Hok; simpl; [done|].
  destruct Hok as [Hc Hcs]. apply IH; [|done].
  by apply shell_invariant_run_command.
Qed.

Lemma shell_invariant_initial : shell_invariant initial_state.
Proof.
  split; [|split]; simpl;
    [apply NoDup_nil_2 | by intros t ?%elem_of_nil | done].
Qed.

(** Every state reached from the initial one has that shape. *)
Lemma reachable_shell_invariant cs :
  commands_ok fileUrl dirname options cs initial_state →
  shell_invariant (run_commands cs initial_state).
Proof. apply shell_invariant_run_commands, shell_invariant_initial. Qed.

(** In such a state, a tab of the order that is not the active one leaves
    the active tab in the order. *)
Lemma shell_invariant_inactive (id : N) (st : State) :
  shell_invariant st → id ∈ tabs st → currentViewId st ≠ Some id →
  ∃ a, currentViewId st = Some a ∧ a ≠ id ∧ a ∈ tabs st.
Proof.
  intros (_ & _ & Hact) Hin Hne.
  destruct Hact as (a & Hcur & Ha).
  - intros E. rewrite E in Hin. by apply elem_of_nil in Hin.
  - exists a. repeat split; [done | congruence | done].
Qed.

(** In such a state the active tab splits the order, which has no repeated
    and no zero id. *)
Lemma shell_invariant_active (id : N) (st : State) :
  shell_invariant st → id ∈ tabs st →
  NoDup (tabs st) ∧ Forall (λ t, t ≠ 0%N) (tabs st) ∧
  ∃ pre post, tabs st = pre ++ id :: post.
Proof.
  intros (Hnd & Hall & _) Hin. split; [done|]. split.
  - apply Forall_forall. intros t Ht. by apply Hall.
  - by apply list_elem_of_split.
Qed.

(** *** Where [newTab] puts the new id *)

(** X20: [newTab] with an anchor that is in the order: the new id comes
    right after the first occurrence of the anchor, the rest of the order
    keeping its place. *)
Lemma newTab_after_anchor url (a vid : N) (pre post : list N) (st : State) :
  a ≠ 0%N →
  a ∉ pre →
  tabs st = pre ++ a :: post →
  tabs (newTab url (Some a) vid st) = pre ++ a :: vid :: post.
Proof.
  intros Ha Hpre Htabs. rewrite newTab_tabs, Htabs. unfold newTab_order.
  destruct (N.eqb_spec a 0) as [?|_]; [done|]. simpl.
  rewrite indexOf_first by done. apply splice_insert_after.
Qed.

Lemma newTab_no_anchor url (vid : N) (st : State) :
  tabs (newTab url None vid st) = tabs st ++ [vid].
Proof. by rewrite newTab_tabs. Qed.

(** An anchor that is not in the order: [indexOf] gives [-1] and the
    [splice] at [-1 + 1] puts the new id first. *)
Lemma newTab_absent_anchor url (a vid : N) (st : State) :
  a ≠ 0%N →
  a ∉ tabs st →
  tabs (newTab url (Some a) vid st) = vid :: tabs st.
Proof.
  intros Ha Habs. rewrite newTab_tabs. unfold newTab_order.
  destruct (N.eqb_spec a 0) as [?|_]; [done|]. simpl.
  rewrite indexOf_absent by done. apply splice_insert_front.
Qed.

End Commands.

(** ** The config store *)

Lemma setTabConfig_entry (id : N) (kv : gmap string value) (st : State) :
  js_get (defTabConfigs (setTabConfig id kv st)) id =
  Some (kv ∪ <["canGoForward" :=
                 match js_get (views st) id with
                 | Some wc => Bool (wc_canGoForward wc)
                 | None => Undefined
                 end]>
               (<["canGoBack" :=
                    match js_get (views st) id with
                    | Some wc => Bool (wc_canGoBack wc)
                    | None => Undefined
                    end]> (default ∅ (js_get (defTabConfigs st) id)))).
Proof.
  unfold setTabConfig, set_tabConfigs, tabConfigs.
  destruct (ipc _); simpl; by rewrite js_get_insert, decide_True.
Qed.

Lemma setTabConfig_log (id : N) (kv : gmap string value) (st : State) :
  log (setTabConfig id kv st) =
  log st ++
  (if ipc st
   then [TabsUpdate (defTabConfigs (setTabConfig id kv st)) (tabs st)]
   else []).
Proof.
  unfold setTabConfig, set_tabConfigs, tabConfigs. simpl.
  destruct (ipc st); simpl; [done | by rewrite app_nil_r].
Qed.

(** C6, as the code has it: merging [{title: x}] into the entry of [id]
    gives an entry whose [title] is [x]; whose [canGoBack] and
    [canGoForward] are written anew, from the live view when [this.views]
    has one for [id] and as [undefined] when it has none; and whose other
    keys are those of the prior entry, with their values.  The entries of
    the other ids are as before, and the snapshot replied to the control
    surface is the new config object. *)
Theorem setTabConfig_title_merge (id : N) (x : string) (st : State) :
  ∃ t' : gmap string value,
    js_get (tabConfigs (setTabConfig id {[ "title" := Str x ]} st)) id
      = Some t' ∧
    t' !! "title" = Some (Str x) ∧
    t' !! "canGoBack" =
      Some (match js_get (views st) id with
            | Some wc => Bool (wc_canGoBack wc)
            | None => Undefined
            end) ∧
    t' !! "canGoForward" =
      Some (match js_get (views st) id with
            | Some wc => Bool (wc_canGoForward wc)
            | None => Undefined
            end) ∧
    (∀ k : string,
       k ≠ "title" → k ≠ "canGoBack" → k ≠ "canGoForward" →
       t' !! k = default ∅ (js_get (tabConfigs st) id) !! k) ∧
    (∀ j : N,
       j ≠ id →
       js_get (tabConfigs (setTabConfig id {[ "title" := Str x ]} st)) j =
       js_get (tabConfigs st) j) ∧
    log (setTabConfig id {[ "title" := Str x ]} st) =
      log st ++
      (if ipc st
       then [TabsUpdate
               (tabConfigs (setTabConfig id {[ "title" := Str x ]} st))
               (tabs st)]
       else []).
Proof.
  eexists. unfold tabConfigs. split; [apply setTabConfig_entry|].
  repeat split.
  - apply lookup_union_Some_l. by rewrite lookup_singleton_eq.
  - rewrite lookup_union_r by (by rewrite lookup_singleton_ne).
    rewrite lookup_insert_ne by done. by rewrite lookup_insert_eq.
  - rewrite lookup_union_r by (by rewrite lookup_singleton_ne).
    by rewrite lookup_insert_eq.
  - intros k Ht Hb Hf.
    rewrite lookup_union_r by (by rewrite lookup_singleton_ne).
    by rewrite !lookup_insert_ne.
  - intros j Hj. by apply setTabConfig_other.
  - apply setTabConfig_log.
Qed.

(** ** The navigation listeners *)

Lemma starts_with_split (p s : string) :
  starts_with p s = true → ∃ r, s = p +:+ r.
Proof.
  revert s. induction p as [|a p IH]; intros s; simpl.
  - by exists s.
  - destruct s as [|b s]; [done|]. case_decide; [|done]. subst b.
    intros [r ->]%IH. by exists r.
Qed.

Lemma starts_with_includes (s p : string) :
  starts_with p s = true → includes s p = true.
Proof. destruct s; simpl; intros ->; done. Qed.

Lemma starts_with_refl_app (p r : string) : starts_with p (p +:+ r) = true.
Proof.
  induction p as [|a p IH]; [done|]. simpl. by rewrite decide_True.
Qed.

Section Navigation.
Context (fileUrl : string → string) (dirname : string) (options : Options).

(** What the [file-url] package returns is [encodeURI('file://' + path)]
    with [?] and [#] escaped: it begins with [file://]. *)
Hypothesis fileUrl_scheme : ∀ p, starts_with "file://" (fileUrl p) = true.

Ltac unfold_page_locator := unfold page_locator.
Ltac unfold_rewrite_href :=
  unfold rewrite_href, first_builtin, built_in_pages.
Ltac unfold_first_builtin_in_goal := unfold first_builtin.
Ltac unfold_on_did_start_navigation := unfold on_did_start_navigation.

Local Abbreviation page_locator := (page_locator fileUrl dirname).
Local Abbreviation rewrite_href := (rewrite_href fileUrl dirname options).
Local Abbreviation first_builtin := (first_builtin fileUrl dirname).
Local Abbreviation on_did_start_navigation :=
  (on_did_start_navigation fileUrl dirname options).

Lemma virtual_not_physical (v name : string) :
  includes v "file://" = false → includes v (page_locator name) = false.
Proof.
  intros Hv. unfold_page_locator.
  destruct (starts_with_split _ _ (fileUrl_scheme
    (dirname +:+ "/main/renderer/" +:+ name +:+ ".html"))) as [r ->].
  destruct (includes v ("file://" +:+ r)) eqn:E; [|done].
  apply includes_app in E. congruence.
Qed.

(** The chain of tests computes the address of the first page of the table
    whose resource occurs in [href]. *)
Lemma rewrite_href_first_builtin (href : string) :
  Some href ≠ blankPage options →
  rewrite_href href =
  match first_builtin href with
  | Some p => p.2
  | None => href
  end.
Proof.
  intros Hblank.
  unfold_rewrite_href.
  cbv zeta. rewrite bool_decide_false by done. simpl List.find.
  repeat (match goal with
          | |- context [includes href (page_locator ?n)] =>
              destruct (includes href (page_locator n)) eqn:?
          end;
          cbv beta iota;
          [ repeat match goal with
                   | |- context [includes ?v (page_locator ?n)] =>
                       rewrite (virtual_not_physical v n) by reflexivity;
                       cbv beta iota
                   end;
            reflexivity | ]).
  reflexivity.
Qed.

Lemma first_builtin_virtual (href : string) (p : string * string) :
  first_builtin href = Some p →
  p ∈ built_in_pages ∧ includes href (page_locator p.1) = true ∧
  includes p.2 "file://" = false.
Proof.
  intros Hfind. apply List.find_some in Hfind as [Hin Hinc].
  repeat split; [by apply list_elem_of_In | done |].
  unfold built_in_pages in Hin. simpl in Hin.
  repeat (destruct Hin as [<-|Hin]; [reflexivity|]). done.
Qed.

Lemma url_href_entry (id : N) (h : string) (st : State) :
  ∃ t' : gmap string value,
    js_get
      (defTabConfigs
         (setTabConfig id {[ "url" := Str h; "href" := Str h ]} st)) id
      = Some t' ∧
    t' !! "url" = Some (Str h) ∧ t' !! "href" = Some (Str h).
Proof.
  eexists. split; [apply setTabConfig_entry|].
  split; apply lookup_union_Some_l.
  - by rewrite lookup_insert_eq.
  - rewrite lookup_insert_ne by done. by rewrite lookup_singleton_eq.
Qed.

(** In an order of tests [before ++ p :: after], the first page whose
    resource occurs in [href] is [p] when it occurs for [p] and for no page
    of [before]. *)
Lemma find_first_match {A : Type} (f : A → bool) (before after : list A)
    (x : A) :
  (∀ p, p ∈ before → f p = false) →
  f x = true →
  List.find f (before ++ x :: after) = Some x.
Proof.
  intros Hbefore Hx. induction before as [|b before IH]; simpl.
  - by rewrite Hx.
  - rewrite (Hbefore b) by (by left). apply IH.
    intros p Hp. apply Hbefore. by right.
Qed.

(** Where the chain of tests reaches the page navigated to: a main-frame
    navigation whose target is the built-in page [name], that is, whose
    address [href] begins with the resource of that page, [href] not being
    the configured blank page and no resource of a page tested before
    [name] occurring in it.  The [url] and [href] written to the entry,
    replied in the snapshot and emitted with [url-updated] are [virt], the
    virtual address of [name], and no local resource occurs in [virt]. *)
Lemma did_start_navigation_shows_virtual_address
    (id : N) (href name virt : string) (before after : list (string * string))
    (isInPlace : bool) (st : State) :
  built_in_pages = before ++ (name, virt) :: after →
  starts_with (page_locator name) href = true →
  Some href ≠ blankPage options →
  (∀ p, p ∈ before → includes href (page_locator p.1) = false) →
  let st' := on_did_start_navigation id href isInPlace true st in
  (∃ t' : gmap string value,
     js_get (tabConfigs st') id = Some t' ∧
     t' !! "url" = Some (Str virt) ∧
     t' !! "href" = Some (Str virt)) ∧
  log st' =
    log st ++
    (if ipc st then [TabsUpdate (tabConfigs st') (tabs st)] else []) ++
    [UrlUpdated id virt] ∧
  (∀ n, includes virt (page_locator n) = false).
Proof.
  intros Hpages Htarget Hblank Hbefore.
  assert (first_builtin href = Some (name, virt)) as Hfind.
  { unfold_first_builtin_in_goal. rewrite Hpages.
    apply find_first_match; [done|]. by apply starts_with_includes. }
  destruct (first_builtin_virtual href _ Hfind) as (_ & _ & Hvirt).
  assert (rewrite_href href = virt) as Hrw
    by (rewrite rewrite_href_first_builtin by done; by rewrite Hfind).
  cbv zeta. split; [|split].
  - unfold_on_did_start_navigation. rewrite Hrw. apply url_href_entry.
  - unfold_on_did_start_navigation. rewrite Hrw.
    simpl. rewrite setTabConfig_log. by rewrite <- app_assoc.
  - intros n. by apply virtual_not_physical.
Qed.

End Navigation.

(** The ['will-redirect'] listener writes the [href] it receives, as it is
    and whatever frame redirects. *)
Lemma will_redirect_writes_raw
    (fileUrl : string → string) (dirname : string) (options : Options)
    (id : N) (href : string) (isInPlace isMainFrame : bool) (st : State) :
  let st' :=
    on_event fileUrl dirname options id
      (WillRedirect href isInPlace isMainFrame) st in
  (∃ t' : gmap string value,
     js_get (tabConfigs st') id = Some t' ∧
     t' !! "url" = Some (Str href) ∧ t' !! "href" = Some (Str href)) ∧
  log st' =
    log st ++
    (if ipc st then [TabsUpdate (tabConfigs st') (tabs st)] else []) ++
    [UrlUpdated id href].
Proof.
  simpl. unfold on_will_redirect. split; [apply url_href_entry|].
  simpl. rewrite setTabConfig_log. by rewrite <- app_assoc.
Qed.

(** ** Actions on the active view *)

Section Act.
Context (wc_has_method : string → bool).

(** C9: ['act'] with [reload], the active view being [wc] under the id
    [id].  When [wc.getURL()] is [''] the handler returns at once: the
    state, and with it the log of calls made on the platform, is unchanged.
    Otherwise the one effect is the call of [reload] on the active
    [webContents]. *)
Theorem act_reload_suppressed_on_empty_location
    (id : N) (wc : View) (st : State) :
  currentViewId st = Some id →
  currentView st = Some wc →
  wc_has_method "reload" = true →
  (wc_url wc = "" → webContentsAct wc_has_method "reload" st = st) ∧
  (wc_url wc ≠ "" →
   webContentsAct wc_has_method "reload" st = emit (WcCall id "reload") st).
Proof.
  intros Hcur Hview Hfun. unfold webContentsAct.
  rewrite Hview, Hcur, Hfun. rewrite bool_decide_true by done. simpl.
  split; intros Hurl.
  - by rewrite bool_decide_true.
  - by rewrite bool_decide_false.
Qed.

End Act.

(** ** The properties on the concrete shell *)

Lemma posix_fileUrl_scheme (p : string) :
  starts_with "file://" (posix_fileUrl p) = true.
Proof. reflexivity. Qed.

(** The scenario of three tabs with the middle one active: closing it
    leaves the third active and the order [1; 3]; the window sees the
    second view taken off and the third put on, then the new order, then
    the destruction of the second view. *)
Lemma closeTab_active_switches_to_next_witness :
  currentViewId
    (closeTab posix_fileUrl app_dirname app_options 2 9
       three_tabs_middle_active) = Some 3%N ∧
  tabs (closeTab posix_fileUrl app_dirname app_options 2 9
          three_tabs_middle_active) = [1%N; 3%N] ∧
  log (closeTab posix_fileUrl app_dirname app_options 2 9
         three_tabs_middle_active) =
    log three_tabs_middle_active ++
    [WinRemoveView (Some 2%N); WinAddView (Some 3%N); SetBounds 3%N;
     ActiveUpdate 3%N;
     TabsUpdate (<[2%N := None]> (defTabConfigs three_tabs_middle_active))
       [1%N; 3%N];
     WcDestroy 2%N].
Proof.
  destruct (closeTab_active_switches_to_next posix_fileUrl app_dirname
              app_options 2 9 [1%N] [3%N] three_tabs_middle_active)
    as (next & Hnext & _ & _ & _ & _ & Hcur & Htabs & _ & _ & _ & _ & Hlog).
  - vm_compute; reflexivity.
  - vm_compute; reflexivity.
  - replace (tabs three_tabs_middle_active) with [1%N; 2%N; 3%N]
      by (vm_compute; reflexivity).
    refine (@bool_decide_unpack (NoDup [1%N; 2%N; 3%N]) _ _).
    vm_compute; exact I.
  - replace (tabs three_tabs_middle_active) with [1%N; 2%N; 3%N]
      by (vm_compute; reflexivity).
    repeat constructor; discriminate.
  - discriminate.
  - simpl in Hnext. injection Hnext as <-.
    split; [assumption|]. split; [assumption|].
    rewrite Hlog. vm_compute. reflexivity.
Defined.

(** Closing the first of the three tabs while the middle one is active. *)
Lemma closeTab_inactive_keeps_active_witness :
  currentViewId
    (closeTab posix_fileUrl app_dirname app_options 1 9
       three_tabs_middle_active) = Some 2%N ∧
  tabs (closeTab posix_fileUrl app_dirname app_options 1 9
          three_tabs_middle_active) = [2%N; 3%N].
Proof.
  destruct (closeTab_inactive_keeps_active posix_fileUrl app_dirname
              app_options 1 9 2 three_tabs_middle_active)
    as (Hcur & Htabs & _).
  - vm_compute; reflexivity.
  - discriminate.
  - replace (tabs three_tabs_middle_active) with [1%N; 2%N; 3%N]
      by (vm_compute; reflexivity).
    apply list_elem_of_In. simpl. tauto.
  - split; [assumption|]. rewrite Htabs. vm_compute; reflexivity.
Defined.

(** Closing the only tab of the started shell. *)
Lemma closeTab_only_tab_witness :
  currentViewId (closeTab_switch 1 shell_started) = Some 1%N ∧
  currentView
    (destroyView 1 (closeTab_remove 1 (closeTab_switch 1 shell_started)))
    = None ∧
  currentViewId
    (closeTab posix_fileUrl app_dirname app_options 1 2 shell_started)
    = Some 2%N.
Proof.
  destruct (closeTab_only_tab_reactivates_closed posix_fileUrl app_dirname
              app_options 1 2
              {| wc_url := ""; wc_canGoBack := false;
                 wc_canGoForward := false; wc_marks := true |}
              shell_started)
    as (H1 & _ & _ & _ & _ & H2 & _ & _ & H3 & _).
  - vm_compute; reflexivity.
  - vm_compute; reflexivity.
  - discriminate.
  - vm_compute; reflexivity.
  - vm_compute; reflexivity.
  - discriminate.
  - repeat split; assumption.
Defined.

(** [reload] on the started shell, whose view reports no location yet. *)
Lemma act_reload_witness :
  webContentsAct nav_methods "reload" shell_started = shell_started.
Proof.
  apply (act_reload_suppressed_on_empty_location nav_methods 1
           {| wc_url := ""; wc_canGoBack := false; wc_canGoForward := false;
              wc_marks := true |} shell_started).
  - vm_compute; reflexivity.
  - vm_compute; reflexivity.
  - vm_compute; reflexivity.
  - reflexivity.
Defined.

(** The navigation the ['did-fail-load'] listener starts for a page of
    the web: the entry shows the address of the network-error page. *)
Lemma did_start_navigation_witness :
  let href :=
    fail_page_url posix_fileUrl app_dirname (-105) "ERR_NAME_NOT_RESOLVED"
      "https://down.example/" in
  let st' :=
    on_did_start_navigation posix_fileUrl app_dirname app_options 1 href
      false true shell_started in
  ∃ t' : gmap string value,
    js_get (tabConfigs st') 1 = Some t' ∧
    t' !! "url" = Some (Str "px://network-error") ∧
    t' !! "href" = Some (Str "px://network-error").
Proof.
  cbv zeta.
  refine (proj1 (did_start_navigation_shows_virtual_address posix_fileUrl
              app_dirname app_options posix_fileUrl_scheme 1
              (fail_page_url posix_fileUrl app_dirname (-105)
                 "ERR_NAME_NOT_RESOLVED" "https://down.example/")
              "web_fail_code" "px://network-error"
              [("settings", "px://settings"); ("about", "px://about");
               ("help", "px://help")]
              [("credits", "px://credits")] false shell_started
              _ _ _ _)).
  - reflexivity.
  - vm_compute; reflexivity.
  - discriminate.
  - intros p Hp. apply list_elem_of_In in Hp. simpl in Hp.
    destruct Hp as [<-|[<-|[<-|[]]]]; vm_compute; reflexivity.
Defined.

(** C5 at the error page of a failed load of the settings page.  The
    ['did-fail-load'] listener sends the view to the resource of the
    network-error page, the failing address in its query.  When that
    navigation starts, the test for the settings page, made first, finds the
    failing address and reassigns [href]; the test for the network-error
    page, made on the reassigned [href], fails.  The entry and
    [url-updated] show [px://settings], not [px://network-error].  After
    the same failure of the credits page, tested after the network-error
    page, they show [px://network-error]. *)
Theorem fail_page_for_settings_shows_settings :
  let fail_of (name : string) : string :=
    fail_page_url posix_fileUrl app_dirname (-6) "ERR_FILE_NOT_FOUND"
      (page_locator posix_fileUrl app_dirname name) in
  let failed (name : string) : State :=
    on_event posix_fileUrl app_dirname app_options 1
      (DidFailLoad (-6) "ERR_FILE_NOT_FOUND"
         (page_locator posix_fileUrl app_dirname name) true)
      shell_started in
  let shown (name : string) : State :=
    on_event posix_fileUrl app_dirname app_options 1
      (DidStartNavigation (fail_of name) false true) (failed name) in
  ("web_fail_code", "px://network-error") ∈ built_in_pages ∧
  starts_with (page_locator posix_fileUrl app_dirname "web_fail_code")
    (fail_of "settings") = true ∧
  Some (fail_of "settings") ≠ blankPage app_options ∧
  (∃ snapshot,
     log (failed "settings") =
       log shell_started ++
       [WcLoadURL 1 (fail_of "settings"); snapshot]) ∧
  js_get (tabConfigs (shown "settings")) 1 ≫= (.!! "url")
    = Some (Str "px://settings") ∧
  js_get (tabConfigs (shown "settings")) 1 ≫= (.!! "href")
    = Some (Str "px://settings") ∧
  last (log (shown "settings")) = Some (UrlUpdated 1 "px://settings") ∧
  Str "px://settings" ≠ Str "px://network-error" ∧
  js_get (tabConfigs (shown "credits")) 1 ≫= (.!! "url")
    = Some (Str "px://network-error") ∧
  last (log (shown "credits")) = Some (UrlUpdated 1 "px://network-error").
Proof.
  cbv zeta. split; [apply list_elem_of_In; simpl; tauto|].
  split; [vm_compute; reflexivity|].
  split; [discriminate|].
  split; [eexists; vm_compute; reflexivity|].
  vm_compute. repeat split; discriminate.
Qed.

(** C6 as stated fails on an entry whose view is gone: [canGoBack] was
    [true] and is [undefined] after the merge of a title. *)
Lemma merge_without_view_overwrites_canGoBack :
  js_get (views entry_without_view) 1 = None ∧
  js_get (tabConfigs entry_without_view) 1 ≫= (.!! "canGoBack")
    = Some (Bool true) ∧
  js_get (tabConfigs
            (setTabConfig 1 {[ "title" := Str "X" ]} entry_without_view)) 1
    ≫= (.!! "canGoBack") = Some Undefined ∧
  Bool true ≠ Undefined.
Proof. vm_compute. repeat split; discriminate. Qed.

(** C7 at a redirect in a sub-frame, and at a redirect to the resource of a
    built-in page: the ['will-redirect'] listener writes the address it
    receives and emits [url-updated]; the ['did-start-navigation'] listener
    ignores the first and writes [px://settings] for the second. *)
Theorem will_redirect_differs_from_did_start_navigation :
  let ev := on_event posix_fileUrl app_dirname app_options 1 in
  let frame := "https://ads.example/frame" in
  let settings := page_locator posix_fileUrl app_dirname "settings" in
  js_get (tabConfigs (ev (WillRedirect frame false false) shell_started)) 1
    ≫= (.!! "url") = Some (Str frame) ∧
  last (log (ev (WillRedirect frame false false) shell_started))
    = Some (UrlUpdated 1 frame) ∧
  ev (DidStartNavigation frame false false) shell_started = shell_started ∧
  js_get (tabConfigs (ev (WillRedirect settings false true) shell_started)) 1
    ≫= (.!! "url") = Some (Str "file:///app/main/renderer/settings.html") ∧
  js_get (tabConfigs (ev (DidStartNavigation settings false true)
                        shell_started)) 1
    ≫= (.!! "url") = Some (Str "px://settings").
Proof. vm_compute. repeat split; reflexivity. Qed.

(** C4 on the order [1; 2; 3]: after the anchor 1, at the end without an
    anchor, and first (not last) with the anchor 7, which is not in the
    order. *)
Theorem newTab_absent_anchor_inserts_first :
  let open_tab := newTab posix_fileUrl app_dirname app_options None in
  tabs three_tabs = [1%N; 2%N; 3%N] ∧
  tabs (open_tab (Some 1%N) 4%N three_tabs) = [1%N; 4%N; 2%N; 3%N] ∧
  tabs (open_tab None 4%N three_tabs) = [1%N; 2%N; 3%N; 4%N] ∧
  tabs (open_tab (Some 7%N) 4%N three_tabs) = [4%N; 1%N; 2%N; 3%N].
Proof. vm_compute. repeat split; reflexivity. Qed.

(** * More of the window *)

(** ** Events, addresses and actions between the commands *)

Lemma key_synchronized_fields (st st' : State) :
  tabs st' = tabs st → defTabConfigs st' = defTabConfigs st →
  key_synchronized st → key_synchronized st'.
Proof.
  unfold key_synchronized, tabConfigs. intros -> -> Hst. exact Hst.
Qed.

Lemma shell_invariant_fields (st st' : State) :
  tabs st' = tabs st → defCurrentViewId st' = defCurrentViewId st →
  (∀ t, is_Some (js_get (views st') t) ↔ is_Some (js_get (views st) t)) →
  shell_invariant st → shell_invariant st'.
Proof.
  unfold shell_invariant, currentViewId.
  intros -> -> Hviews (Hnd & Hall & Hact).
  split; [done|]. split; [|done].
  intros t Ht. destruct (Hall t Ht) as [? ?]. split; [done|].
  by apply Hviews.
Qed.

Lemma webContentsAct_fields (wc_has_method : string → bool)
    (actionName : string) (st : State) :
  let st' := webContentsAct wc_has_method actionName st in
  tabs st' = tabs st ∧ defCurrentViewId st' = defCurrentViewId st ∧
  views st' = views st ∧ defTabConfigs st' = defTabConfigs st ∧
  ipc st' = ipc st.
Proof.
  simpl. unfold webContentsAct.
  destruct (currentView st), (currentViewId st); try done.
  destruct (wc_has_method actionName); [|done].
  by destruct (_ && _).
Qed.

Section Events.
Context (fileUrl : string → string) (dirname : string) (options : Options)
        (wc_has_method : string → bool).

Ltac unfold_listeners :=
  unfold on_event, on_did_start_navigation, on_will_redirect.

Local Abbreviation on_event := (on_event fileUrl dirname options).
Local Abbreviation run_step :=
  (run_step fileUrl dirname options wc_has_method).
Local Abbreviation run_steps :=
  (run_steps fileUrl dirname options wc_has_method).
Local Abbreviation steps_satisfy :=
  (steps_satisfy fileUrl dirname options wc_has_method).

Lemma on_event_fields (id : N) (ev : WcEvent) (st : State) :
  tabs (on_event id ev st) = tabs st ∧
  defCurrentViewId (on_event id ev st) = defCurrentViewId st ∧
  views (on_event id ev st) = views st ∧
  ipc (on_event id ev st) = ipc st.
Proof.
  unfold_listeners.
  destruct ev as [|? ? ? ?|? ? m|? ? ?| | | |]; try destruct m; simpl;
    rewrite ?setTabConfig_tabs, ?setTabConfig_current, ?setTabConfig_views,
      ?setTabConfig_ipc; done.
Qed.

Lemma on_event_other (id j : N) (ev : WcEvent) (st : State) :
  j ≠ id →
  js_get (defTabConfigs (on_event id ev st)) j = js_get (defTabConfigs st) j.
Proof.
  intros Hne. unfold_listeners.
  destruct ev as [|? ? ? ?|? ? m|? ? ?| | | |]; try destruct m; simpl;
    rewrite ?setTabConfig_other by done; done.
Qed.

Lemma on_event_defined (id j : N) (ev : WcEvent) (st : State) :
  is_Some (js_get (defTabConfigs st) j) →
  is_Some (js_get (defTabConfigs (on_event id ev st)) j).
Proof.
  intros Hj. destruct (decide (j = id)) as [->|Hne];
    [|by rewrite on_event_other].
  unfold_listeners.
  destruct ev as [|? ? ? ?|? ? m|? ? ?| | | |]; try destruct m; simpl;
    try done; apply setTabConfig_defined.
Qed.

(** X1: an event of the view of [id] leaves the tab order, the active id,
    the views and the control channel as they were, and the config entry of
    every other id as it read before. *)
Theorem event_touches_one_entry (id : N) (ev : WcEvent) (st : State) :
  tabs (on_event id ev st) = tabs st ∧
  currentViewId (on_event id ev st) = currentViewId st ∧
  views (on_event id ev st) = views st ∧
  ipc (on_event id ev st) = ipc st ∧
  ∀ j : N, j ≠ id →
    js_get (tabConfigs (on_event id ev st)) j = js_get (tabConfigs st) j.
Proof.
  destruct (on_event_fields id ev st) as (Ht & Hc & Hv & Hi).
  repeat split; try done. intros j Hj. by apply on_event_other.
Qed.

Lemma key_synchronized_on_event (id : N) (ev : WcEvent) (st : State) :
  id ∈ tabs st → key_synchronized st → key_synchronized (on_event id ev st).
Proof.
  unfold key_synchronized, tabConfigs. intros Hin Hst j.
  destruct (on_event_fields id ev st) as (-> & _).
  destruct (decide (j = id)) as [->|Hne].
  - split; [intros _ | done]. apply on_event_defined. by apply Hst.
  - rewrite on_event_other by done. apply Hst.
Qed.

Lemma key_synchronized_run_step (s : Step) (st : State) :
  event_of_open_tab s st → key_synchronized st →
  key_synchronized (run_step s st).
Proof.
  destruct s as [c|id ev|url|a]; simpl; intros Hok Hst.
  - by apply key_synchronized_run_command.
  - by apply key_synchronized_on_event.
  - unfold url_enter. apply (key_synchronized_fields st);
      [apply loadURL_tabs | apply loadURL_defTabConfigs | done].
  - destruct (webContentsAct_fields wc_has_method a st)
      as (Ht & _ & _ & Hf & _).
    by apply (key_synchronized_fields st).
Qed.

(** X2: the commands of the claim C2 interleaved with events of the views
    of tabs that are in the order when the event arrives, with addresses
    entered and with actions: after every such sequence from the initial
    state the ids of the order are the ids with a defined config entry. *)
Theorem steps_keep_tabs_and_configs_synchronized (ss : list Step) :
  steps_satisfy event_of_open_tab ss initial_state →
  key_synchronized (run_steps ss initial_state).
Proof.
  generalize key_synchronized_initial. generalize initial_state.
  induction ss as [|s ss IH]; intros st Hst Hok; simpl; [done|].
  destruct Hok as [Hs Hss]. apply IH; [|done].
  by apply key_synchronized_run_step.
Qed.

Lemma shell_invariant_run_step (s : Step) (st : State) :
  step_ok s st → shell_invariant st → shell_invariant (run_step s st).
Proof.
  destruct s as [c|id ev|url|a]; simpl; intros Hok Hst.
  - by apply shell_invariant_run_command.
  - destruct (on_event_fields id ev st) as (Ht & Hc & Hv & _).
    apply (shell_invariant_fields st); try done. intros t. by rewrite Hv.
  - unfold url_enter. apply (shell_invariant_fields st); [| | |done].
    + apply loadURL_tabs.
    + apply loadURL_current.
    + intros t. apply loadURL_views_live.
  - destruct (webContentsAct_fields wc_has_method a st)
      as (Ht & Hc & Hv & _ & _).
    apply (shell_invariant_fields st); try done. intros t. by rewrite Hv.
Qed.

(** X3: in every state reached from the initial one by steps the platform
    and the control surface can issue (a new view has a non-zero id that no
    tab has, [switch-tab] and events name tabs of the order), the order has
    no repeated and no zero id, every tab of the order has a live view, and
    while there is a tab the active id is a tab of the order. *)
Theorem steps_keep_shell_invariant (ss : list Step) :
  steps_satisfy step_ok ss initial_state →
  shell_invariant (run_steps ss initial_state).
Proof.
  generalize shell_invariant_initial. generalize initial_state.
  induction ss as [|s ss IH]; intros st Hst Hok; simpl; [done|].
  destruct Hok as [Hs Hss]. apply IH; [|done].
  by apply shell_invariant_run_step.
Qed.

End Events.

(** ** What the methods return, field by field *)

Lemma setTabConfig_result (id : N) (kv : gmap string value) (st : State) :
  setTabConfig id kv st =
  {| defCurrentViewId := defCurrentViewId st;
     defTabConfigs := defTabConfigs (setTabConfig id kv st);
     views := views st; tabs := tabs st; ipc := ipc st;
     log := log st ++
            (if ipc st
             then [TabsUpdate (defTabConfigs (setTabConfig id kv st))
                     (tabs st)]
             else []) |}.
Proof.
  unfold setTabConfig, set_tabConfigs, tabConfigs. simpl.
  destruct (ipc st) eqn:E; simpl; rewrite ?app_nil_r, ?E; [done|].
  by destruct st.
Qed.

Section Results.
Context (fileUrl : string → string) (dirname : string) (options : Options).

Ltac unfold_loadURL := unfold loadURL.
Ltac unfold_newTab := unfold newTab.
Ltac unfold_closeTab := unfold closeTab, closeTab_reopen.
Ltac unfold_control_ready := unfold control_ready.

Local Abbreviation loadURL := (loadURL fileUrl dirname).
Local Abbreviation page_locator := (page_locator fileUrl dirname).
Local Abbreviation newTab := (newTab fileUrl dirname options).
Local Abbreviation closeTab := (closeTab fileUrl dirname options).
Local Abbreviation control_ready := (control_ready fileUrl dirname options).
Local Abbreviation newTab_entry_of := (newTab_entry_of options).

Lemma truthy_str_nonempty (u : string) : u ≠ "" → truthy_str (Some u) = true.
Proof. by destruct u. Qed.

Lemma currentView_live (id : N) (v : View) (st : State) :
  currentViewId st = Some id → id ≠ 0%N → js_get (views st) id = Some v →
  currentView st = Some v.
Proof.
  intros Hcur Hid Hview. unfold currentView. rewrite Hcur.
  by rewrite truthy_id_nonzero.
Qed.

(** The first load of the current view: the address goes to the view as it
    is, and the view is marked. *)
Lemma loadURL_first (id : N) (v : View) (u : string) (st : State) :
  currentViewId st = Some id →
  id ≠ 0%N →
  js_get (views st) id = Some v →
  wc_marks v = false →
  u ≠ "" →
  loadURL (Some u) st =
  {| defCurrentViewId := defCurrentViewId st;
     defTabConfigs := defTabConfigs st;
     views := <[id := Some {| wc_url := wc_url v;
                              wc_canGoBack := wc_canGoBack v;
                              wc_canGoForward := wc_canGoForward v;
                              wc_marks := true |}]> (views st);
     tabs := tabs st; ipc := ipc st;
     log := log st ++ [WcLoadURL id u; SetBounds id] |}.
Proof.
  intros Hcur Hid Hview Hmarks Hu. unfold_loadURL.
  rewrite (currentView_live id v), Hcur, truthy_str_nonempty, Hmarks by done.
  unfold mark_initialized. simpl. rewrite Hview.
  unfold setContentBounds.
  match goal with
  | |- context [match currentViewKey ?s with _ => _ end] =>
      rewrite (currentViewKey_live id
                 {| wc_url := wc_url v; wc_canGoBack := wc_canGoBack v;
                    wc_canGoForward := wc_canGoForward v;
                    wc_marks := true |} s)
  end; [| done | done | simpl; by rewrite js_get_insert, decide_True].
  unfold emit, set_views. simpl. by rewrite <- app_assoc.
Qed.

(** A later load of the current view. *)
Lemma loadURL_again (id : N) (v : View) (u : string) (st : State) :
  currentViewId st = Some id →
  id ≠ 0%N →
  js_get (views st) id = Some v →
  wc_marks v = true →
  u ≠ "" →
  loadURL (Some u) st =
  emit (WcLoadURL id
          (if includes u "px://"
           then page_locator (replace_first "px://" "" u) else u)) st.
Proof.
  intros Hcur Hid Hview Hmarks Hu. unfold_loadURL.
  by rewrite (currentView_live id v), Hcur, truthy_str_nonempty, Hmarks.
Qed.

Lemma loadURL_nothing (url : option string) (st : State) :
  truthy_str url = false ∨ currentView st = None →
  loadURL url st = st.
Proof.
  intros [Hu|Hv]; unfold_loadURL.
  - destruct url as [u|]; [|done].
    destruct (currentView st), (currentViewId st); try done. by rewrite Hu.
  - rewrite Hv. by destruct url.
Qed.

Lemma currentViewKey_insert_other (vid : N) (w : option View)
    (st st' : State) :
  currentViewId st ≠ Some vid →
  defCurrentViewId st' = defCurrentViewId st →
  views st' = <[vid := w]> (views st) →
  currentViewKey st' = currentViewKey st.
Proof.
  intros Hne Hc Hv. unfold currentViewKey, currentView, currentViewId in *.
  rewrite Hc, Hv. destruct (defCurrentViewId st) as [c|]; [|done].
  rewrite js_get_insert, decide_False; [done | congruence].
Qed.

Lemma newTab_first_statement (appendTo : option N) (vid : N) (st : State) :
  (if truthy_id appendTo
   then match appendTo with
        | Some a =>
            set_tabs (splice_insert (tabs st) (indexOf (tabs st) a + 1) vid)
              st
        | None => st
        end
   else set_tabs (tabs st ++ [vid]) st) =
  set_tabs (newTab_order appendTo vid (tabs st)) st.
Proof.
  unfold newTab_order. destruct appendTo as [a|]; simpl; [|done].
  by destruct (negb (a =? 0)%N).
Qed.

Lemma newTab_result (url : option string) (appendTo : option N) (vid : N)
    (st : State) :
  vid ≠ 0%N →
  currentViewId st ≠ Some vid →
  let target := js_or url (blankPage options) in
  let confs :=
    <[vid := Some (newTab_entry_of (js_get (defTabConfigs st) vid))]>
      (defTabConfigs st) in
  newTab url appendTo vid st =
  {| defCurrentViewId := Some vid;
     defTabConfigs := confs;
     views := <[vid := Some {| wc_url := ""; wc_canGoBack := false;
                               wc_canGoForward := false;
                               wc_marks := truthy_str target |}]> (views st);
     tabs := newTab_order appendTo vid (tabs st);
     ipc := ipc st;
     log := log st ++
            [WinRemoveView (currentViewKey st); WinAddView (Some vid);
             SetBounds vid] ++
            (if ipc st then [ActiveUpdate vid] else []) ++
            match target with
            | Some u =>
                if truthy_str target then [WcLoadURL vid u; SetBounds vid]
                else []
            | None => []
            end ++
            (if ipc st
             then [TabsUpdate confs (newTab_order appendTo vid (tabs st))]
             else []) |}.
Proof.
  intros Hvid Hcur target confs. unfold_newTab.
  rewrite newTab_first_statement.
  rewrite (setCurrentView_live vid new_view)
    by (try done; simpl; by rewrite js_get_insert, decide_True).
  match goal with
  | |- context [WinRemoveView (currentViewKey ?s)] =>
      rewrite (currentViewKey_insert_other vid (Some new_view) st s)
        by done
  end.
  simpl. fold target.
  match goal with
  | |- context [setTabConfig _ _ (_ _ _ target ?s)] => set (st3 := s)
  end.
  assert (loadURL target st3 =
          {| defCurrentViewId := Some vid; defTabConfigs := defTabConfigs st;
             views := <[vid := Some {| wc_url := ""; wc_canGoBack := false;
                                       wc_canGoForward := false;
                                       wc_marks := truthy_str target |}]>
                        (views st);
             tabs := newTab_order appendTo vid (tabs st); ipc := ipc st;
             log := log st3 ++
                    match target with
                    | Some u =>
                        if truthy_str target
                        then [WcLoadURL vid u; SetBounds vid] else []
                    | None => []
                    end |}) as ->.
  { destruct (truthy_str target) eqn:Htr.
    - destruct target as [u|]; [|done].
      rewrite (loadURL_first vid new_view u st3); try done.
      + subst st3; simpl. by rewrite insert_insert_eq.
      + subst st3; simpl. by rewrite js_get_insert, decide_True.
      + by destruct u.
    - rewrite loadURL_nothing by (by left). subst st3; simpl.
      destruct target; by rewrite app_nil_r. }
  rewrite setTabConfig_result. unfold setTabConfig, set_tabConfigs, tabConfigs.
  subst st3. simpl.
  rewrite js_get_insert, decide_True by done. simpl.
  fold (newTab_entry_of (js_get (defTabConfigs st) vid)). fold confs.
  destruct (ipc st); simpl; by rewrite <- !app_assoc.
Qed.

(** X4: [newTab] with a non-zero id that is not the active one.  The new
    id is active; its view is stored, marked only if something was loaded;
    the views and entries of the other ids read as before; and the calls
    come in this order: the active view is detached, the new one attached
    and sized, [active-update] replied, then the address ([url], or the
    blank page when [url] is empty) is loaded as it is, then the snapshot
    with the new entry is replied. *)
Theorem newTab_activates_loads_then_registers
    (url : option string) (appendTo : option N) (vid : N) (st : State) :
  vid ≠ 0%N →
  currentViewId st ≠ Some vid →
  let target := js_or url (blankPage options) in
  let st' := newTab url appendTo vid st in
  currentViewId st' = Some vid ∧
  js_get (views st') vid =
    Some {| wc_url := ""; wc_canGoBack := false; wc_canGoForward := false;
            wc_marks := truthy_str target |} ∧
  (∀ j : N, j ≠ vid →
     js_get (views st') j = js_get (views st) j ∧
     js_get (tabConfigs st') j = js_get (tabConfigs st) j) ∧
  log st' =
    log st ++
    [WinRemoveView (currentViewKey st); WinAddView (Some vid);
     SetBounds vid] ++
    (if ipc st then [ActiveUpdate vid] else []) ++
    match target with
    | Some u =>
        if truthy_str target then [WcLoadURL vid u; SetBounds vid] else []
    | None => []
    end ++
    (if ipc st then [TabsUpdate (tabConfigs st') (tabs st')] else []).
Proof.
  intros Hvid Hcur target st'. subst st'. unfold tabConfigs.
  rewrite (newTab_result url appendTo vid st Hvid Hcur). simpl.
  fold target. repeat split.
  - by rewrite js_get_insert, decide_True.
  - by rewrite js_get_insert, decide_False.
  - by rewrite js_get_insert, decide_False.
Qed.

(** X5: ['control-ready'] on the window the constructor leaves, the
    platform giving the first view a non-zero id.  There is exactly one
    tab, it is active, its entry is the blank entry, the control channel is
    set; the start page (the blank page when the start page is empty) is
    loaded into it; and [active-update], the snapshot and the
    [control-ready] event follow in this order. *)
Theorem control_ready_opens_first_tab (vid : N) :
  vid ≠ 0%N →
  let target :=
    js_or (js_or (startPage options) (Some "")) (blankPage options) in
  let st' := control_ready vid initial_state in
  tabs st' = [vid] ∧
  currentViewId st' = Some vid ∧
  ipc st' = true ∧
  tabConfigs st' = {[ vid := Some (newTab_entry_of None) ]} ∧
  log st' =
    [WinRemoveView None; WinAddView (Some vid); SetBounds vid;
     ActiveUpdate vid] ++
    match target with
    | Some u =>
        if truthy_str target then [WcLoadURL vid u; SetBounds vid] else []
    | None => []
    end ++
    [TabsUpdate {[ vid := Some (newTab_entry_of None) ]} [vid];
     ControlReady].
Proof.
  intros Hvid target st'. subst st'. unfold_control_ready.
  rewrite (newTab_result _ None vid (set_ipc true initial_state) Hvid)
    by done.
  fold target. unfold tabConfigs, emit. simpl.
  rewrite insert_empty. repeat split. by rewrite <- !app_assoc.
Qed.

Lemma remove_id_newTab_order (appendTo : option N) (vid : N) (l : list N) :
  vid ∉ l → remove_id vid (newTab_order appendTo vid l) = l.
Proof.
  intros Hfresh.
  assert (∀ n, remove_id vid (take n l ++ vid :: drop n l) = l) as Hsplice.
  { intros n. rewrite remove_id_split, take_drop; [done|..];
      intros Hin; apply Hfresh.
    - by apply (subseteq_take n l).
    - by apply (subseteq_drop n l). }
  unfold newTab_order.
  destruct appendTo as [a|]; [destruct (negb (a =? 0)%N)|].
  - unfold splice_insert; cbv zeta. apply Hsplice.
  - rewrite (remove_id_split vid l []); [apply app_nil_r | done |].
    apply not_elem_of_nil.
  - rewrite (remove_id_split vid l []); [apply app_nil_r | done |].
    apply not_elem_of_nil.
Qed.

Lemma loadURL_views_other (url : option string) (j : N) (st : State) :
  currentViewId st ≠ Some j →
  js_get (views (loadURL url st)) j = js_get (views st) j.
Proof.
  intros Hne. unfold_loadURL.
  destruct url as [u|]; [|done].
  destruct (currentView st) as [v|]; [|done].
  destruct (currentViewId st) as [id|] eqn:Hcur; [|done].
  destruct (truthy_str (Some u)); [|done].
  destruct (wc_marks v); [done|].
  unfold setContentBounds. destruct (currentViewKey _); simpl;
    unfold mark_initialized; simpl;
    (destruct (js_get (views st) id) as [w|] eqn:E; [|done]); simpl;
    rewrite js_get_insert, decide_False; congruence.
Qed.

Lemma newTab_views_other (url : option string) (appendTo : option N)
    (vid j : N) (st : State) :
  vid ≠ 0%N → j ≠ vid →
  js_get (views (newTab url appendTo vid st)) j = js_get (views st) j.
Proof.
  intros Hvid Hj. unfold_newTab. rewrite newTab_first_statement.
  rewrite setTabConfig_views, loadURL_views_other.
  - rewrite setCurrentView_views. simpl.
    by rewrite js_get_insert, decide_False.
  - unfold currentViewId. rewrite setCurrentView_current.
    rewrite truthy_id_nonzero by done. congruence.
Qed.

Lemma newTab_order_split (appendTo : option N) (vid : N)
    (l pre post : list N) :
  vid ∉ l → newTab_order appendTo vid l = pre ++ vid :: post →
  (vid ∉ pre) ∧ (vid ∉ post) ∧ pre ++ post ≡ₚ l.
Proof.
  intros Hfresh Hsplit.
  assert (pre ++ post ≡ₚ l) as Hperm.
  { apply (Permutation_cons_inv (a := vid)).
    rewrite Permutation_middle, <- Hsplit.
    apply newTab_order_Permutation. }
  rewrite <- Hperm in Hfresh. apply not_elem_of_app in Hfresh. tauto.
Qed.

(** X6: a tab opened with a fresh non-zero id and closed at once, in a
    shell that has tabs.  The order is the one before; the views and
    entries of the old tabs read as before, those of the new id are gone.
    The active tab is the one that followed the new tab in the order,
    wrapping to the first: without an anchor the first tab of the order,
    whichever tab was active before. *)
Theorem open_then_close_restores_order
    (url : option string) (appendTo : option N) (vid vid' : N) (st : State) :
  vid ≠ 0%N →
  vid ∉ tabs st →
  tabs st ≠ [] →
  Forall (λ t, t ≠ 0%N) (tabs st) →
  let st' := closeTab vid vid' (newTab url appendTo vid st) in
  tabs st' = tabs st ∧
  (∀ pre post, newTab_order appendTo vid (tabs st) = pre ++ vid :: post →
               currentViewId st' = head (post ++ pre)) ∧
  (appendTo = None → currentViewId st' = head (tabs st)) ∧
  js_get (views st') vid = None ∧
  js_get (tabConfigs st') vid = None ∧
  ∀ j : N, j ≠ vid →
    js_get (views st') j = js_get (views st) j ∧
    js_get (tabConfigs st') j = js_get (tabConfigs st) j.
Proof.
  intros Hvid Hfresh Hne Hnz st'.
  set (s1 := newTab url appendTo vid st).
  assert (tabs s1 = newTab_order appendTo vid (tabs st)) as Ht1
    by apply newTab_tabs.
  assert (currentViewId s1 = Some vid) as Hc1.
  { unfold currentViewId. subst s1. rewrite newTab_current.
    by destruct (N.eqb_spec vid 0). }
  assert (remove_id vid (tabs s1) = tabs st) as Hrem
    by (rewrite Ht1; by apply remove_id_newTab_order).
  assert (st' = destroyView vid (closeTab_remove vid
                  (closeTab_switch vid s1))) as Hst'.
  { subst st'. apply closeTab_no_reopen. by rewrite Hrem. }
  assert (∀ pre post,
            newTab_order appendTo vid (tabs st) = pre ++ vid :: post →
            currentViewId st' = head (post ++ pre)) as Hnext.
  { intros pre post Hsplit.
    destruct (newTab_order_split _ _ _ _ _ Hfresh Hsplit)
      as (Hpre & Hpost & Hperm).
    unfold currentViewId. rewrite Hst'.
    rewrite destroyView_current, closeTab_remove_current.
    rewrite (closeTab_switch_current vid pre post s1);
      [| done | by rewrite Ht1 | done |].
    - rewrite app_assoc. destruct (post ++ pre) eqn:E; [|done].
      apply app_eq_nil in E as [-> ->]. simpl in Hperm.
      apply Permutation_nil_l in Hperm. congruence.
    - rewrite Ht1, newTab_order_Permutation. by apply Forall_cons. }
  split; [|split; [done|split; [|split; [|split]]]].
  - rewrite Hst'.
    by rewrite destroyView_tabs, closeTab_remove_tabs, closeTab_switch_tabs.
  - intros ->. rewrite (Hnext (tabs st) []); [|done].
    by rewrite app_nil_l.
  - rewrite Hst'. apply destroyView_gone.
  - unfold tabConfigs. rewrite Hst'.
    rewrite closeTab_before_reopen_defTabConfigs.
    by rewrite js_get_insert, decide_True.
  - intros j Hj. unfold tabConfigs. rewrite Hst'. split.
    + rewrite destroyView_other by done.
      rewrite closeTab_remove_views, closeTab_switch_views.
      by apply newTab_views_other.
    + rewrite closeTab_before_reopen_defTabConfigs.
      rewrite js_get_insert, decide_False by done.
      by apply newTab_other.
Qed.

Lemma closeTab_gone (id vid : N) (st : State) :
  vid ≠ id →
  (id ∉ tabs (closeTab id vid st)) ∧
  js_get (views (closeTab id vid st)) id = None ∧
  js_get (defTabConfigs (closeTab id vid st)) id = None.
Proof.
  intros Hne. unfold_closeTab.
  set (mid := destroyView id (closeTab_remove id (closeTab_switch id st))).
  assert (id ∉ tabs mid) as Ht.
  { subst mid. rewrite closeTab_before_reopen_tabs.
    rewrite elem_of_remove_id. by intros [_ ?]. }
  assert (js_get (views mid) id = None) as Hv by apply destroyView_gone.
  assert (js_get (defTabConfigs mid) id = None) as Hf.
  { subst mid. rewrite closeTab_before_reopen_defTabConfigs.
    by rewrite js_get_insert, decide_True. }
  destruct (length (tabs mid) =? 0)%nat; [|done].
  split; [|split].
  - rewrite newTab_tabs, elem_of_newTab_order. intros [?|?]; [congruence|done].
  - destruct (js_get (views (newTab None None vid mid)) id) eqn:E; [|done].
    assert (is_Some (js_get (views (newTab None None vid mid)) id)) as Hs
      by (by rewrite E).
    apply newTab_views_live in Hs as [?|[? Hs]]; congruence.
  - by rewrite newTab_other.
Qed.

(** X7: whatever the state, [close-tab] of [id] leaves nothing of the id,
    which is not in the order and has no view and no entry, and touches no
    other tab: the views and entries of the ids other than [id] and the
    id [vid] of a view the handler may create read as before. *)
Theorem closeTab_touches_only_the_closed_tab (id vid : N) (st : State) :
  vid ≠ id →
  vid ≠ 0%N →
  let st' := closeTab id vid st in
  (id ∈ tabs st' → False) ∧
  js_get (views st') id = None ∧
  js_get (tabConfigs st') id = None ∧
  ∀ j : N, j ≠ id → j ≠ vid →
    js_get (views st') j = js_get (views st) j ∧
    js_get (tabConfigs st') j = js_get (tabConfigs st) j.
Proof.
  intros Hne Hvid st'. subst st'. unfold tabConfigs.
  destruct (closeTab_gone id vid st Hne) as (Ht & Hv & Hf).
  split; [done|]. split; [done|]. split; [done|].
  intros j Hj Hjv. unfold_closeTab.
  set (mid := destroyView id (closeTab_remove id (closeTab_switch id st))).
  assert (js_get (views mid) j = js_get (views st) j) as Hmv.
  { subst mid. rewrite destroyView_other by done.
    by rewrite closeTab_remove_views, closeTab_switch_views. }
  assert (js_get (defTabConfigs mid) j = js_get (defTabConfigs st) j) as Hmf.
  { subst mid. rewrite closeTab_before_reopen_defTabConfigs.
    by rewrite js_get_insert, decide_False. }
  destruct (length (tabs mid) =? 0)%nat; [|done].
  by rewrite newTab_views_other, newTab_other.
Qed.

End Results.

(** ** Switching, destroying, merging *)

(** X8: [switchTab] to an id whose view is alive: the command ends
    normally with that id active, after detaching the view that was
    active, attaching and sizing the new one, replying [active-update] and
    focusing the new view, in this order; nothing else changes. *)
Theorem switchTab_live_view (id : N) (v : View) (st : State) :
  id ≠ 0%N →
  js_get (views st) id = Some v →
  switchTab id st =
  Normal
    {| defCurrentViewId := Some id; defTabConfigs := defTabConfigs st;
       views := views st; tabs := tabs st; ipc := ipc st;
       log := log st ++
              [WinRemoveView (currentViewKey st); WinAddView (Some id);
               SetBounds id] ++
              (if ipc st then [ActiveUpdate id] else []) ++ [WcFocus id] |}.
Proof.
  intros Hid Hview. unfold switchTab.
  rewrite (setCurrentView_live id v) by done.
  rewrite (currentViewKey_live id v) by done.
  unfold emit. simpl. by rewrite <- !app_assoc.
Qed.

(** X9: [switchTab] to a non-zero id that has no view (never opened, or
    closed): [this.currentView.webContents] throws, after the active id
    was set to that id and [active-update] replied for it; the active id
    is left naming no view. *)
Theorem switchTab_without_view_throws (id : N) (st : State) :
  id ≠ 0%N →
  js_get (views st) id = None →
  switchTab id st =
  Throw
    {| defCurrentViewId := Some id; defTabConfigs := defTabConfigs st;
       views := views st; tabs := tabs st; ipc := ipc st;
       log := log st ++
              [WinRemoveView (currentViewKey st); WinAddView None] ++
              (if ipc st then [ActiveUpdate id] else []) |} ∧
  currentView (state_of (switchTab id st)) = None.
Proof.
  intros Hid Hview. unfold switchTab.
  rewrite (setCurrentView_gone id) by done.
  rewrite (currentViewKey_gone id) by done.
  split; [done|]. simpl. unfold currentView, currentViewId. simpl.
  destruct (negb (id =? 0)%N); [by rewrite Hview | done].
Qed.

(** X10: [destroyView] destroys a view at most once: on an id without a
    live view it changes nothing, and a second call after a first changes
    nothing more. *)
Theorem destroyView_idempotent (id : N) (st : State) :
  destroyView id (destroyView id st) = destroyView id st ∧
  (js_get (views st) id = None → destroyView id st = st).
Proof.
  assert (∀ s, js_get (views s) id = None → destroyView id s = s) as Hnone
    by (intros s Hs; unfold destroyView; by rewrite Hs).
  split; [|apply Hnone]. apply Hnone, destroyView_gone.
Qed.

Lemma destroyView_log (id : N) (st : State) :
  log (destroyView id st) =
  log st ++ match js_get (views st) id with
            | Some _ => [WcDestroy id]
            | None => []
            end.
Proof.
  unfold destroyView. destruct (js_get (views st) id); simpl;
    [done | by rewrite app_nil_r].
Qed.

Lemma destroy_each_tabs (l : list N) (st : State) :
  tabs (fold_left (λ s id, destroyView id s) l st) = tabs st.
Proof.
  revert st. induction l as [|t l IH]; intros st; simpl; [done|].
  by rewrite IH, destroyView_tabs.
Qed.

Lemma destroy_each_fields (l : list N) (st : State) :
  let st' := fold_left (λ s id, destroyView id s) l st in
  defTabConfigs st' = defTabConfigs st ∧
  defCurrentViewId st' = defCurrentViewId st.
Proof.
  revert st. induction l as [|t l IH]; intros st; simpl; [done|].
  destruct (IH (destroyView t st)) as [-> ->].
  by rewrite destroyView_defTabConfigs, destroyView_current.
Qed.

Lemma destroy_each_views (l : list N) (st : State) (j : N) :
  js_get (views (fold_left (λ s id, destroyView id s) l st)) j =
  if decide (j ∈ l) then None else js_get (views st) j.
Proof.
  revert st. induction l as [|t l IH]; intros st; cbn [fold_left].
  - case_decide as H; [by apply elem_of_nil in H | done].
  - rewrite IH. destruct (decide (j = t)) as [->|Hne];
      [rewrite destroyView_gone | rewrite destroyView_other by done];
      repeat case_decide; try done; exfalso;
      repeat match goal with
             | H : context [_ ∈ _ :: _] |- _ => rewrite elem_of_cons in H
             end; tauto.
Qed.

Lemma filter_ext_elem_of (P Q : N → Prop) `{!∀ x, Decision (P x)}
    `{!∀ x, Decision (Q x)} (l : list N) :
  (∀ x, x ∈ l → P x ↔ Q x) → filter P l = filter Q l.
Proof.
  induction l as [|t l IH]; intros Hext; [done|].
  assert (filter P l = filter Q l) as Hl
    by (apply IH; intros x Hx; apply Hext; by right).
  destruct (decide (P t)) as [Hp|Hp].
  - rewrite !filter_cons_True, Hl; [done | | done].
    apply Hext; [by left | done].
  - rewrite !filter_cons_False, Hl; [done | | done].
    intros Hq. apply Hp, Hext; [by left | done].
Qed.

Lemma destroy_each_log (l : list N) (st : State) :
  NoDup l →
  log (fold_left (λ s id, destroyView id s) l st) =
  log st ++
  (WcDestroy <$> filter (λ t, is_Some (js_get (views st) t)) l).
Proof.
  revert st. induction l as [|t l IH]; intros st Hnd; simpl.
  - by rewrite app_nil_r.
  - apply NoDup_cons in Hnd as [Ht Hnd]. rewrite IH by done.
    rewrite destroyView_log, <- app_assoc. f_equal.
    assert (filter (λ t0, is_Some (js_get (views (destroyView t st)) t0)) l
            = filter (λ t0, is_Some (js_get (views st) t0)) l) as ->.
    { apply filter_ext_elem_of. intros x Hx.
      rewrite destroyView_other; [done|]. intros ->. done. }
    destruct (js_get (views st) t) as [v|] eqn:E.
    + rewrite filter_cons_True by (by rewrite E). done.
    + rewrite filter_cons_False by (rewrite E; by intros [? ?]). done.
Qed.

(** X11: the teardown of the ['closed'] listener, on an order without
    repeated ids: afterwards no tab of the order has a view, each view
    that was alive was destroyed exactly once and in tab order, the views
    of other ids are untouched, and the order, the active id and the
    config entries stay as they were. *)
Theorem destroy_all_views_leaves_no_view (st : State) :
  NoDup (tabs st) →
  let st' := destroy_all_views st in
  (∀ j : N,
     js_get (views st') j =
     if decide (j ∈ tabs st) then None else js_get (views st) j) ∧
  log st' =
    log st ++
    (WcDestroy <$> filter (λ t, is_Some (js_get (views st) t)) (tabs st)) ∧
  tabs st' = tabs st ∧
  tabConfigs st' = tabConfigs st ∧
  currentViewId st' = currentViewId st.
Proof.
  intros Hnd st'. subst st'. unfold destroy_all_views, tabConfigs,
    currentViewId.
  destruct (destroy_each_fields (tabs st) st) as [Hf Hc].
  repeat split; try done.
  - intros j. apply destroy_each_views.
  - by apply destroy_each_log.
  - apply destroy_each_tabs.
Qed.

Lemma setTabConfig_defTabConfigs (id : N) (kv : gmap string value)
    (st : State) :
  defTabConfigs (setTabConfig id kv st) =
  <[id := Some (kv ∪ <["canGoForward" :=
                        match js_get (views st) id with
                        | Some wc => Bool (wc_canGoForward wc)
                        | None => Undefined
                        end]>
                      (<["canGoBack" :=
                           match js_get (views st) id with
                           | Some wc => Bool (wc_canGoBack wc)
                           | None => Undefined
                           end]> (default ∅ (js_get (defTabConfigs st) id))))]>
    (defTabConfigs st).
Proof.
  unfold setTabConfig, set_tabConfigs, tabConfigs. by destruct (ipc _).
Qed.

(** X12: two merges into the entry of one id, the first not supplying
    [canGoBack] or [canGoForward] (no listener does), leave the config
    object that the one merge of both field sets leaves, the fields of the
    second winning; the order, the views and the active id are untouched. *)
Theorem setTabConfig_merges_compose
    (id : N) (kv1 kv2 : gmap string value) (st : State) :
  kv1 !! "canGoBack" = None →
  kv1 !! "canGoForward" = None →
  tabConfigs (setTabConfig id kv2 (setTabConfig id kv1 st)) =
    tabConfigs (setTabConfig id (kv2 ∪ kv1) st) ∧
  tabs (setTabConfig id kv2 (setTabConfig id kv1 st)) = tabs st ∧
  views (setTabConfig id kv2 (setTabConfig id kv1 st)) = views st ∧
  currentViewId (setTabConfig id kv2 (setTabConfig id kv1 st)) =
    currentViewId st.
Proof.
  intros Hb Hf. unfold tabConfigs, currentViewId.
  rewrite !setTabConfig_tabs, !setTabConfig_views, !setTabConfig_current.
  repeat split.
  rewrite !setTabConfig_defTabConfigs, setTabConfig_views.
  rewrite js_get_insert, decide_True by done. simpl.
  rewrite insert_insert_eq. f_equal. f_equal.
  apply map_eq. intros k.
  destruct (kv2 !! k) as [x|] eqn:E2.
  { transitivity (Some x); [by apply lookup_union_Some_l|].
    symmetry. by apply lookup_union_Some_l, lookup_union_Some_l. }
  rewrite <- (assoc_L (∪) kv2 kv1). rewrite !(lookup_union_r kv2) by done.
  destruct (decide (k = "canGoForward")) as [->|Hkf].
  { rewrite lookup_union_r by done. by rewrite !lookup_insert_eq. }
  rewrite lookup_insert_ne by done.
  destruct (decide (k = "canGoBack")) as [->|Hkb].
  { rewrite lookup_insert_eq, lookup_union_r by done.
    rewrite lookup_insert_ne by done. by rewrite lookup_insert_eq. }
  by rewrite lookup_insert_ne.
Qed.

(** ** Addresses, actions and late events *)

Section Addresses.
Context (fileUrl : string → string) (dirname : string) (options : Options)
        (wc_has_method : string → bool).

Ltac unfold_url_change := unfold url_change.
Ltac unfold_url_enter := unfold url_enter.
Ltac unfold_act := unfold webContentsAct.

Local Abbreviation loadURL := (loadURL fileUrl dirname).
Local Abbreviation url_enter := (url_enter fileUrl dirname).
Local Abbreviation page_locator := (page_locator fileUrl dirname).
Local Abbreviation closeTab := (closeTab fileUrl dirname options).
Local Abbreviation webContentsAct := (webContentsAct wc_has_method).

(** X13: a merge arriving for a tab that [close-tab] has removed (a
    listener of its view still running) writes an entry again: it holds
    the merged fields with [canGoBack] and [canGoForward] [undefined], and
    its id is not in the order. *)
Theorem merge_after_close_recreates_entry
    (id vid : N) (kv : gmap string value) (st : State) :
  vid ≠ id →
  let st' := setTabConfig id kv (closeTab id vid st) in
  (id ∈ tabs st' → False) ∧
  js_get (tabConfigs st') id =
    Some (kv ∪ {[ "canGoForward" := Undefined; "canGoBack" := Undefined ]}).
Proof.
  intros Hne st'. subst st'. unfold tabConfigs.
  destruct (closeTab_gone fileUrl dirname options id vid st Hne)
    as (Ht & Hv & Hf).
  split; [by rewrite setTabConfig_tabs|].
  by rewrite setTabConfig_entry, Hv, Hf.
Qed.

(** X14: an address in the virtual scheme entered for the active view.
    On a view that has loaded before, [px://name] is replaced by the local
    resource of [name] and that is the one call made; on a view that has
    not, the address goes to the view as it is. *)
Theorem px_address_resolved_after_first_load
    (id : N) (v : View) (name : string) (st : State) :
  currentViewId st = Some id →
  id ≠ 0%N →
  js_get (views st) id = Some v →
  url_enter (Some ("px://" +:+ name)) st =
  if wc_marks v
  then emit (WcLoadURL id (page_locator name)) st
  else
    {| defCurrentViewId := defCurrentViewId st;
       defTabConfigs := defTabConfigs st;
       views := <[id := Some {| wc_url := wc_url v;
                                wc_canGoBack := wc_canGoBack v;
                                wc_canGoForward := wc_canGoForward v;
                                wc_marks := true |}]> (views st);
       tabs := tabs st; ipc := ipc st;
       log := log st ++ [WcLoadURL id ("px://" +:+ name); SetBounds id] |}.
Proof.
  intros Hcur Hid Hview. unfold_url_enter.
  destruct (wc_marks v) eqn:Hmarks.
  - by rewrite (loadURL_again fileUrl dirname id v).
  - by rewrite (loadURL_first fileUrl dirname id v).
Qed.

(** X15: the listeners and the bounds are set up once per view: after the
    first load of the active view, a later load makes the one call
    [webContents.loadURL] and changes no field of the window. *)
Theorem later_load_only_navigates
    (id : N) (v : View) (u1 u2 : string) (st : State) :
  currentViewId st = Some id →
  id ≠ 0%N →
  js_get (views st) id = Some v →
  u1 ≠ "" →
  u2 ≠ "" →
  let st1 := url_enter (Some u1) st in
  let st2 := url_enter (Some u2) st1 in
  (∃ w, js_get (views st1) id = Some w ∧ wc_marks w = true) ∧
  log st2 =
    log st1 ++
    [WcLoadURL id (if includes u2 "px://"
                   then page_locator (replace_first "px://" "" u2)
                   else u2)] ∧
  views st2 = views st1 ∧ tabs st2 = tabs st1 ∧
  tabConfigs st2 = tabConfigs st1 ∧ currentViewId st2 = currentViewId st1.
Proof.
  intros Hcur Hid Hview Hu1 Hu2 st1 st2.
  assert (∃ w, js_get (views st1) id = Some w ∧ wc_marks w = true)
    as (w & Hw & Hmarks).
  { subst st1. unfold_url_enter. destruct (wc_marks v) eqn:Hmarks.
    - rewrite (loadURL_again fileUrl dirname id v) by done. by exists v.
    - rewrite (loadURL_first fileUrl dirname id v) by done. simpl.
      rewrite js_get_insert, decide_True by done. by eexists. }
  assert (currentViewId st1 = Some id) as Hcur1
    by (unfold currentViewId; subst st1; unfold_url_enter;
        by rewrite loadURL_current).
  split; [by exists w|].
  subst st2. unfold_url_enter. fold st1.
  by rewrite (loadURL_again fileUrl dirname id w).
Qed.

(** X16: ['act'] changes no field of the window.  It makes at most one
    call, of the named method on the view of the active tab; without an
    active view, or for a name that is no method of a [webContents], it
    makes none. *)
Theorem act_calls_the_active_view_only (actionName : string) (st : State) :
  (webContentsAct actionName st = st ∨
   ∃ id wc, currentViewId st = Some id ∧ currentView st = Some wc ∧
            wc_has_method actionName = true ∧
            webContentsAct actionName st = emit (WcCall id actionName) st) ∧
  (currentView st = None ∨ wc_has_method actionName = false →
   webContentsAct actionName st = st).
Proof.
  unfold_act. split.
  - destruct (currentView st) as [wc|] eqn:Hv; [|by left].
    destruct (currentViewId st) as [id|] eqn:Hc; [|by left].
    destruct (wc_has_method actionName) eqn:Hm; [|by left].
    destruct (_ && _); [by left|]. right. by exists id, wc.
  - intros [->| ->]; [done|].
    by destruct (currentView st), (currentViewId st).
Qed.

(** X17: ['url-change'] with an active tab merges the text into the [url]
    of the active tab's entry and nothing else: [href], [title], [favicon]
    and [isLoading] keep their values, no view is asked to load, and the
    order, the views, the active id and the other entries are as before. *)
Theorem url_change_edits_active_url (id : N) (text : string) (st : State) :
  currentViewId st = Some id →
  ∃ st' (t' : gmap string value),
    url_change text st = Some st' ∧
    js_get (tabConfigs st') id = Some t' ∧
    t' !! "url" = Some (Str text) ∧
    (∀ k : string,
       k ≠ "url" → k ≠ "canGoBack" → k ≠ "canGoForward" →
       t' !! k = default ∅ (js_get (tabConfigs st) id) !! k) ∧
    (∀ j : N, j ≠ id →
       js_get (tabConfigs st') j = js_get (tabConfigs st) j) ∧
    tabs st' = tabs st ∧ views st' = views st ∧
    currentViewId st' = Some id ∧
    log st' =
      log st ++
      (if ipc st then [TabsUpdate (tabConfigs st') (tabs st)] else []).
Proof.
  intros Hcur. unfold_url_change. rewrite Hcur.
  eexists. eexists. split; [done|]. unfold tabConfigs.
  split; [apply setTabConfig_entry|].
  rewrite setTabConfig_tabs, setTabConfig_views.
  unfold currentViewId. rewrite setTabConfig_current.
  repeat split; try done.
  - apply lookup_union_Some_l. by rewrite lookup_singleton_eq.
  - intros k Hk Hb Hf.
    rewrite lookup_union_r by (by rewrite lookup_singleton_ne).
    by rewrite !lookup_insert_ne.
  - intros j Hj. by apply setTabConfig_other.
  - apply setTabConfig_log.
Qed.

End Addresses.

(** ** The address bar *)

Lemma starts_with_app_r (p s r : string) :
  starts_with p s = true → starts_with p (s +:+ r) = true.
Proof.
  revert s. induction p as [|a p IH]; intros s; simpl; [done|].
  destruct s as [|b s]; [done|]. simpl. case_decide; [apply IH | done].
Qed.

Lemma has_scheme_app (p v : string) :
  has_scheme p = true → has_scheme (p +:+ v) = true.
Proof.
  induction p as [|c p IH]; [done|].
  change (String c p +:+ v) with (String c (p +:+ v)).
  cbn [has_scheme]. rewrite !orb_true_iff.
  intros [H|H]; [left; by apply (starts_with_app_r "://" (String c p) v)|].
  right. destruct (is_line_terminator c); [done | by apply IH].
Qed.

Lemma trimStart_idemp (s : string) : trimStart (trimStart s) = trimStart s.
Proof.
  induction s as [|c s IH]; [done|]. simpl.
  destruct (is_whitespace c) eqn:E; [done|]. simpl. by rewrite E.
Qed.

Lemma trimEnd_cons (c : Ascii.ascii) (r : string) :
  trimEnd r ≠ "" → trimEnd (String c r) = String c (trimEnd r).
Proof. simpl. by destruct (trimEnd r). Qed.

Lemma trimEnd_idemp (s : string) : trimEnd (trimEnd s) = trimEnd s.
Proof.
  induction s as [|c s IH]; [done|]. simpl.
  destruct (trimEnd s) as [|c' r'] eqn:E.
  - destruct (is_whitespace c) eqn:Ew; [done|]. simpl. by rewrite Ew.
  - rewrite trimEnd_cons; [by rewrite IH | by rewrite IH].
Qed.

Lemma trimEnd_app (p v : string) :
  trimEnd v ≠ "" → trimEnd (p +:+ v) = p +:+ trimEnd v.
Proof.
  intros Hv. induction p as [|c p IH]; [done|].
  change (String c p +:+ v) with (String c (p +:+ v)).
  rewrite trimEnd_cons; rewrite IH; [done|]. by destruct p.
Qed.

(** [trimEnd] keeps a first character that is no white space. *)
Lemma trimStart_trimEnd (s : string) :
  trimStart s = s → trimStart (trimEnd s) = trimEnd s.
Proof.
  destruct s as [|c r]; [done|]. simpl.
  destruct (is_whitespace c) eqn:Ew.
  - intros Hs. assert (String.length (trimStart r) ≤ String.length r)%nat.
    { clear. induction r as [|c r IH]; simpl; [lia|].
      destruct (is_whitespace c); simpl; lia. }
    rewrite Hs in H. simpl in H. lia.
  - intros _. destruct (trimEnd r); simpl; by rewrite Ew.
Qed.

Lemma js_trim_fixed (s : string) :
  trimStart s = s → trimEnd s = s → js_trim s = s.
Proof. unfold js_trim. by intros -> ->. Qed.

Lemma js_trim_trimmed (s : string) :
  trimStart (js_trim s) = js_trim s ∧ trimEnd (js_trim s) = js_trim s.
Proof.
  unfold js_trim. split; [|apply trimEnd_idemp].
  apply trimStart_trimEnd, trimStart_idemp.
Qed.

Section Enter.
Context (isUri : string → bool) (search_engine : option string).

Ltac unfold_onPressEnter := unfold onPressEnter.
Ltac unfold_onPressEnter_in H := unfold onPressEnter in H.

Local Abbreviation onPressEnter := (onPressEnter isUri search_engine).

Lemma onPressEnter_fixed (h : string) :
  has_scheme h = true → js_trim h = h → h ≠ "" →
  onPressEnter 13 h = Some h.
Proof.
  intros Hh Ht Hne. unfold_onPressEnter.
  rewrite bool_decide_false by (intros H; by apply H). cbv zeta.
  rewrite Ht, bool_decide_false by done. by rewrite Hh.
Qed.

Lemma trimStart_length (s : string) :
  (String.length (trimStart s) ≤ String.length s)%nat.
Proof.
  induction s as [|c s IH]; simpl; [lia|].
  destruct (is_whitespace c); simpl; lia.
Qed.

Lemma js_trim_prefixed (p v : string) :
  p ≠ "" → trimStart p = p → v ≠ "" → trimEnd v = v →
  js_trim (p +:+ v) = p +:+ v.
Proof.
  intros Hp Hpl Hv Hve. apply js_trim_fixed.
  - destruct p as [|c p]; [done|]. simpl in *.
    destruct (is_whitespace c) eqn:Ew; [|done].
    pose proof (trimStart_length p) as Hlen.
    rewrite Hpl in Hlen. simpl in Hlen. lia.
  - rewrite trimEnd_app; by rewrite Hve.
Qed.

(** X18: Enter in the address bar, the configured search engine being an
    address with a scheme and no leading white space.  What is sent
    carries a scheme, and entering what was sent sends it again
    unchanged: text with a scheme is sent as trimmed, and the prefixes
    [http://] and the search address are put in front once. *)
Theorem enter_sends_a_fixed_point (value href engine : string) :
  search_engine = Some engine →
  has_scheme engine = true →
  trimStart engine = engine →
  onPressEnter 13 value = Some href →
  has_scheme href = true ∧ onPressEnter 13 href = Some href.
Proof.
  intros Heng Hsch Hlead Hsent.
  destruct (js_trim_trimmed value) as [Hts Hte].
  unfold_onPressEnter_in Hsent.
  rewrite bool_decide_false in Hsent by (intros H; by apply H).
  cbv zeta in Hsent. case_bool_decide as Hv; [done|].
  injection Hsent as <-.
  destruct (has_scheme (js_trim value)) eqn:Hs; simpl.
  - split; [done|]. apply onPressEnter_fixed; [done | | done].
    by apply js_trim_fixed.
  - assert (∀ p, has_scheme p = true → trimStart p = p →
                 has_scheme (p +:+ js_trim value) = true ∧
                 onPressEnter 13 (p +:+ js_trim value)
                   = Some (p +:+ js_trim value)) as Hpre.
    { intros p Hp Hpl.
      assert (p ≠ "") as Hpne by (by destruct p).
      split; [by apply has_scheme_app|].
      apply onPressEnter_fixed;
        [by apply has_scheme_app | by apply js_trim_prefixed
        | by destruct p]. }
    destruct (isUri (js_trim value)).
    + by apply Hpre.
    + replace (template search_engine) with engine by (by rewrite Heng).
      by apply Hpre.
Qed.

End Enter.

(** ** A failed load *)

Section Failure.
Context (fileUrl : string → string) (dirname : string) (options : Options).

Ltac unfold_fail := unfold on_event, on_did_start_navigation, fail_page_url.
Ltac unfold_first_builtin := unfold first_builtin, built_in_pages.

Local Abbreviation page_locator := (page_locator fileUrl dirname).
Local Abbreviation fail_page_url := (fail_page_url fileUrl dirname).
Local Abbreviation on_event := (on_event fileUrl dirname options).
Local Abbreviation rewrite_href := (rewrite_href fileUrl dirname options).

(** X19: a load that fails, whatever the frame, the error code, the options
    and the state: the view is sent to the error page, whose address
    carries the description, the code and the failing address, and
    [isLoading] is cleared in the entry.  When the navigation to that
    address starts, with file URLs beginning with [file://], the address
    not being the configured blank page and no resource of the settings,
    about or help page occurring in it, the entry shows
    [px://network-error] as [url] and [href], still not loading. *)
Theorem failed_load_shows_network_error
    (id : N) (code : Z) (desc url : string) (isMainFrame isInPlace : bool)
    (st : State) :
  let href := fail_page_url code desc url in
  let st1 := on_event id (DidFailLoad code desc url isMainFrame) st in
  let st2 := on_event id (DidStartNavigation href isInPlace true) st1 in
  (log st1 =
     log st ++ [WcLoadURL id href] ++
     (if ipc st then [TabsUpdate (tabConfigs st1) (tabs st)] else []) ∧
   ∃ t1 : gmap string value,
     js_get (tabConfigs st1) id = Some t1 ∧
     t1 !! "isLoading" = Some (Bool false)) ∧
  ((∀ p, starts_with "file://" (fileUrl p) = true) →
   Some href ≠ blankPage options →
   includes href (page_locator "settings") = false →
   includes href (page_locator "about") = false →
   includes href (page_locator "help") = false →
   ∃ t : gmap string value,
     js_get (tabConfigs st2) id = Some t ∧
     t !! "url" = Some (Str "px://network-error") ∧
     t !! "href" = Some (Str "px://network-error") ∧
     t !! "isLoading" = Some (Bool false)).
Proof.
  intros href st1 st2.
  assert (∃ t1 : gmap string value,
            js_get (tabConfigs st1) id = Some t1 ∧
            t1 !! "isLoading" = Some (Bool false)) as Hcleared.
  { subst st1. simpl. unfold tabConfigs. eexists.
    split; [apply setTabConfig_entry|].
    apply lookup_union_Some_l. by rewrite lookup_singleton_eq. }
  split; [split; [|done]|].
  - subst st1. simpl. rewrite setTabConfig_log. simpl.
    by rewrite <- app_assoc.
  - intros fileUrl_scheme Hblank Hs Ha Hh.
    assert (rewrite_href href = "px://network-error") as Hrw.
    { rewrite (rewrite_href_first_builtin fileUrl dirname options
                 fileUrl_scheme) by done.
      unfold_first_builtin. simpl List.find. rewrite Hs, Ha, Hh.
      assert (includes href (page_locator "web_fail_code") = true) as ->;
        [|done].
      apply starts_with_includes. subst href. unfold_fail.
      apply starts_with_refl_app. }
    subst st2. simpl. unfold on_did_start_navigation. rewrite Hrw.
    unfold tabConfigs. simpl. eexists.
    split; [apply setTabConfig_entry|].
    split; [|split].
    + apply lookup_union_Some_l. by rewrite lookup_insert_eq.
    + apply lookup_union_Some_l. rewrite lookup_insert_ne by done.
      by rewrite lookup_singleton_eq.
    + rewrite lookup_union_r
        by (rewrite lookup_insert_ne by done; by rewrite lookup_singleton_ne).
      rewrite !lookup_insert_ne by done.
      subst st1. simpl. rewrite setTabConfig_entry. simpl.
      apply lookup_union_Some_l. by rewrite lookup_singleton_eq.
Qed.

End Failure.

(** ** The further properties on the concrete shell *)

(** Decides a closed proposition by evaluation. *)
Ltac by_evaluation :=
  match goal with
  | |- ?P => refine (@bool_decide_unpack P _ _); vm_compute; exact I
  end.

Lemma session_events_come_from_open_tabs :
  steps_satisfy posix_fileUrl app_dirname app_options nav_methods
    event_of_open_tab session initial_state.
Proof.
  unfold session. cbn [steps_satisfy event_of_open_tab].
  repeat split; by_evaluation.
Qed.

(** The session keeps order and entries synchronized. *)
Lemma steps_keep_synchronized_witness :
  key_synchronized
    (run_steps posix_fileUrl app_dirname app_options nav_methods session
       initial_state).
Proof.
  apply steps_keep_tabs_and_configs_synchronized.
  apply session_events_come_from_open_tabs.
Defined.

Lemma session_steps_ok :
  steps_satisfy posix_fileUrl app_dirname app_options nav_methods step_ok
    session initial_state.
Proof.
  unfold session. cbn [steps_satisfy step_ok command_ok].
  repeat split; by_evaluation.
Qed.

(** The session keeps the shape of the state. *)
Lemma steps_keep_shell_invariant_witness :
  shell_invariant
    (run_steps posix_fileUrl app_dirname app_options nav_methods session
       initial_state).
Proof.
  apply steps_keep_shell_invariant. apply session_steps_ok.
Defined.

(** A second tab opened in the started shell. *)
Lemma newTab_activates_witness :
  currentViewId
    (newTab posix_fileUrl app_dirname app_options
       (Some "https://b.example/") None 2 shell_started) = Some 2%N.
Proof.
  destruct (newTab_activates_loads_then_registers posix_fileUrl app_dirname
              app_options (Some "https://b.example/") None 2 shell_started)
    as (Hcur & _); [discriminate | by_evaluation | exact Hcur].
Defined.

(** ['control-ready'] with the first view given the id 1. *)
Lemma control_ready_witness : tabs shell_started = [1%N].
Proof.
  destruct (control_ready_opens_first_tab posix_fileUrl app_dirname
              app_options 1) as (Htabs & _); [discriminate | exact Htabs].
Defined.

(** A fourth tab opened and closed while the middle tab was active: the
    first tab is active afterwards. *)
Lemma open_then_close_witness :
  tabs (closeTab posix_fileUrl app_dirname app_options 4 9
          (newTab posix_fileUrl app_dirname app_options None None 4
             three_tabs_middle_active)) = [1%N; 2%N; 3%N] ∧
  currentViewId
    (closeTab posix_fileUrl app_dirname app_options 4 9
       (newTab posix_fileUrl app_dirname app_options None None 4
          three_tabs_middle_active)) = Some 1%N.
Proof.
  destruct (open_then_close_restores_order posix_fileUrl app_dirname
              app_options None None 4 9 three_tabs_middle_active)
    as (Htabs & _ & Hcur & _);
    [by_evaluation | by_evaluation | by_evaluation | by_evaluation |].
  split; [by rewrite Htabs | by rewrite Hcur].
Defined.

(** The middle of three tabs closed. *)
Lemma closeTab_touches_only_witness :
  js_get
    (views (closeTab posix_fileUrl app_dirname app_options 2 9 three_tabs))
    2 = None.
Proof.
  destruct (closeTab_touches_only_the_closed_tab posix_fileUrl app_dirname
              app_options 2 9 three_tabs) as (_ & Hview & _);
    [discriminate | discriminate | exact Hview].
Defined.

(** A switch to the second of the three tabs. *)
Lemma switchTab_live_view_witness :
  currentViewId (state_of (switchTab 2 three_tabs)) = Some 2%N.
Proof.
  rewrite (switchTab_live_view 2
             {| wc_url := ""; wc_canGoBack := false;
                wc_canGoForward := false; wc_marks := true |} three_tabs);
    [reflexivity | discriminate | vm_compute; reflexivity].
Defined.

(** A switch to an id that was never opened. *)
Lemma switchTab_without_view_witness :
  currentView (state_of (switchTab 7 three_tabs)) = None.
Proof.
  destruct (switchTab_without_view_throws 7 three_tabs) as [_ Hview];
    [discriminate | vm_compute; reflexivity | exact Hview].
Defined.

(** The window closed with three tabs open. *)
Lemma destroy_all_views_witness :
  tabs (destroy_all_views three_tabs) = tabs three_tabs.
Proof.
  destruct (destroy_all_views_leaves_no_view three_tabs)
    as (_ & _ & Htabs & _); [by_evaluation | exact Htabs].
Defined.

(** A load start followed by a title. *)
Lemma setTabConfig_merges_witness :
  tabConfigs
    (setTabConfig 1 {[ "title" := Str "T" ]}
       (setTabConfig 1 {[ "isLoading" := Bool true ]} shell_started)) =
  tabConfigs
    (setTabConfig 1 ({[ "title" := Str "T" ]} ∪ {[ "isLoading" := Bool true ]})
       shell_started).
Proof.
  destruct (setTabConfig_merges_compose 1 {[ "isLoading" := Bool true ]}
              {[ "title" := Str "T" ]} shell_started) as (Hconfs & _);
    [reflexivity | reflexivity | exact Hconfs].
Defined.

(** A title arriving for the closed middle tab. *)
Lemma merge_after_close_witness :
  js_get
    (tabConfigs
       (setTabConfig 2 {[ "title" := Str "late" ]}
          (closeTab posix_fileUrl app_dirname app_options 2 9 three_tabs)))
    2 =
  Some ({[ "title" := Str "late" ]} ∪
        {[ "canGoForward" := Undefined; "canGoBack" := Undefined ]}).
Proof.
  destruct (merge_after_close_recreates_entry posix_fileUrl app_dirname
              app_options 2 9 {[ "title" := Str "late" ]} three_tabs)
    as [_ Hentry]; [discriminate | exact Hentry].
Defined.

(** [px://settings] entered in the started shell, whose view has loaded
    the start page. *)
Lemma px_address_witness :
  url_enter posix_fileUrl app_dirname (Some "px://settings") shell_started =
  emit (WcLoadURL 1 "file:///app/main/renderer/settings.html") shell_started.
Proof.
  refine (px_address_resolved_after_first_load posix_fileUrl app_dirname 1
            {| wc_url := ""; wc_canGoBack := false;
               wc_canGoForward := false; wc_marks := true |}
            "settings" shell_started _ _ _);
    [vm_compute; reflexivity | discriminate | vm_compute; reflexivity].
Defined.

(** Two addresses entered in a row in the started shell. *)
Lemma later_load_witness :
  views
    (url_enter posix_fileUrl app_dirname (Some "https://b.example/")
       (url_enter posix_fileUrl app_dirname (Some "https://a.example/")
          shell_started)) =
  views
    (url_enter posix_fileUrl app_dirname (Some "https://a.example/")
       shell_started).
Proof.
  destruct (later_load_only_navigates posix_fileUrl app_dirname 1
              {| wc_url := ""; wc_canGoBack := false;
                 wc_canGoForward := false; wc_marks := true |}
              "https://a.example/" "https://b.example/" shell_started)
    as (_ & _ & Hviews & _);
    [vm_compute; reflexivity | discriminate | vm_compute; reflexivity
    | discriminate | discriminate | exact Hviews].
Defined.

(** Text typed in the address bar of the started shell. *)
Lemma url_change_witness :
  ∃ st', url_change "exa" shell_started = Some st' ∧
         tabs st' = tabs shell_started.
Proof.
  destruct (url_change_edits_active_url 1 "exa" shell_started)
    as (st' & t' & Hsome & _ & _ & _ & _ & Htabs & _);
    [vm_compute; reflexivity|].
  exists st'. by split.
Defined.

(** A search text entered, with white space around it. *)
Lemma enter_witness :
  onPressEnter no_uri (Some search_address) 13
    "https://www.google.com/search?q=rocq prover" =
  Some "https://www.google.com/search?q=rocq prover".
Proof.
  destruct (enter_sends_a_fixed_point no_uri (Some search_address)
              "  rocq prover " "https://www.google.com/search?q=rocq prover"
              search_address) as [_ Hagain];
    [reflexivity | vm_compute; reflexivity | vm_compute; reflexivity
    | vm_compute; reflexivity | exact Hagain].
Defined.

(** The load of the start page failing in the started shell: the view is
    sent to the error page, and the entry then shows [px://network-error]. *)
Lemma failed_load_witness :
  let href :=
    fail_page_url posix_fileUrl app_dirname (-105) "ERR_NAME_NOT_RESOLVED"
      "https://example.com/" in
  let st1 :=
    on_event posix_fileUrl app_dirname app_options 1
      (DidFailLoad (-105) "ERR_NAME_NOT_RESOLVED" "https://example.com/" true)
      shell_started in
  let st2 :=
    on_event posix_fileUrl app_dirname app_options 1
      (DidStartNavigation href false true) st1 in
  log st1 =
    log shell_started ++
    [WcLoadURL 1 href; TabsUpdate (tabConfigs st1) (tabs shell_started)] ∧
  ∃ t : gmap string value,
    js_get (tabConfigs st2) 1 = Some t ∧
    t !! "url" = Some (Str "px://network-error") ∧
    t !! "isLoading" = Some (Bool false).
Proof.
  cbv zeta.
  destruct (failed_load_shows_network_error posix_fileUrl app_dirname
              app_options 1 (-105) "ERR_NAME_NOT_RESOLVED"
              "https://example.com/" true false shell_started)
    as [[Hlog _] Hshown].
  split; [exact Hlog|].
  destruct Hshown as (t & Hentry & Hurl & _ & Hloading);
    [exact posix_fileUrl_scheme | discriminate | vm_compute; reflexivity
    | vm_compute; reflexivity | vm_compute; reflexivity |].
  exists t. by repeat split.
Defined.

(** A tab opened from the first of the three tabs. *)
Lemma newTab_after_anchor_witness :
  tabs (newTab posix_fileUrl app_dirname app_options None (Some 1%N) 4
          three_tabs) = [1%N; 4%N; 2%N; 3%N].
Proof.
  apply (newTab_after_anchor posix_fileUrl app_dirname app_options None 1 4
           [] [2%N; 3%N] three_tabs);
    [discriminate | apply not_elem_of_nil | vm_compute; reflexivity].
Defined.
